(** * Route construction of [AOpenDriveActor] (OpenDriveActor.cpp)

    A shallow embedding of [AOpenDriveActor::BuildRoutes], [RemoveRoutes],
    [AddSpawners], [RemoveSpawners] and [PostEditChangeProperty], and the
    properties of the route builder proved (or refuted) on it.

    Modelling choices, all local to this file:
    - a C++ [float] is an IEEE-754 binary32 value: [spec_float] with
      precision 24 and [emax] 128, round to nearest even;
    - a pointer to a spawned actor is its index in the world's actor list, so
      that two copies of one pointer alias one actor;
    - UE4 [check(e)] is fatal when [e] is false; [v[0]] on an empty
      [std::vector] has no defined behaviour; the stepping loop of the
      sampler runs on fuel, because a [float] counter may stop growing. *)

From Stdlib Require Import ZArith List Bool String Lia QArith.
From Stdlib Require Import Floats.SpecFloat.
From stdpp Require Import base option list.
Import ListNotations.

Local Open Scope Z_scope.

(** ** C++ [float] *)

Module F32.

Definition prec : Z := 24.
Definition emax : Z := 128.

Definition float := spec_float.

Definition add : float -> float -> float := SFadd prec emax.
Definition sub : float -> float -> float := SFsub prec emax.
Definition div : float -> float -> float := SFdiv prec emax.
Definition ltb : float -> float -> bool := SFltb.
Definition leb : float -> float -> bool := SFleb.

(** Conversion of an integer literal, [10.f], [20.f], ... *)
Definition of_Z (z : Z) : float := binary_normalize prec emax z 0 false.

(** The literal [0.f]. *)
Definition zero : float := S754_zero false.

(** The literal [0.1f]: the binary32 value nearest to one tenth. *)
Definition tenth : float := Eval vm_compute in div (of_Z 1) (of_Z 10).

(** The literal [1.f]. *)
Definition one : float := Eval vm_compute in of_Z 1.

(** [std::max(a, b)] is [(a < b) ? b : a]. *)
Definition std_max (a b : float) : float := if ltb a b then b else a.

(** [std::min(a, b)] is [(b < a) ? b : a]. *)
Definition std_min (a b : float) : float := if ltb b a then b else a.

(** Modelled from the spec: [carla::geom::Math::clamp] (carla/geom/Math.h is
    not among the sources).  The spec describes it as a clamp whose lower
    bound protects the subtraction; it is [min(max(a, lo), hi)]. *)
Definition clamp (a lo hi : float) : float := std_min (std_max a lo) hi.

(** The rational value of a finite float. *)
Definition to_Q (x : float) : option Q :=
  match x with
  | S754_zero _ => Some 0%Q
  | S754_finite s m e =>
      let v := (inject_Z (Zpos m) * Qpower 2 e)%Q in
      Some (if s then Qopp v else v)
  | _ => None
  end.

End F32.

(** ** Geometry *)

Record FVector := mkFVector { X : F32.float; Y : F32.float; Z_ : F32.float }.

Definition FVector_add (a b : FVector) : FVector :=
  mkFVector (F32.add (X a) (X b)) (F32.add (Y a) (Y b)) (F32.add (Z_ a) (Z_ b)).

Record FRotator := mkFRotator
  { Pitch : F32.float; Yaw : F32.float; Roll : F32.float }.

Record Transform := mkTransform { location : FVector; rotation : FRotator }.

(** ** The road network consumed by the builder

    [carla::road::element::Waypoint], [WaypointGenerator] and the map are
    external to OpenDriveActor.cpp; the builder only uses the queries below. *)

Definition IdType := Z.

Class RoadMap (Waypoint : Type) := {
  GetRoadId : Waypoint -> IdType;
  GetLaneId : Waypoint -> Z;
  IsIntersection : Waypoint -> bool;
  ComputeTransform : Waypoint -> Transform;
  (** [WaypointGen::GenerateLaneEnd] applied to the loaded map *)
  GenerateLaneEnd : list Waypoint;
  (** [WaypointGen::GetSuccessors(w)] *)
  GetSuccessors : Waypoint -> list Waypoint;
  (** [WaypointGen::GetNext(w, d)] *)
  GetNext : Waypoint -> F32.float -> list Waypoint;
  (** [map.GetRoad(RoadId)->GetLength()], converted to [float] *)
  GetLength : IdType -> F32.float
}.

(** ** Outcomes of a run *)

Inductive CheckId := CheckDist | CheckSingle | CheckSize.

Inductive outcome (A : Type) :=
| Ok (a : A)
| CheckFailed (c : CheckId)   (* a [check(...)] fired: fatal *)
| OutOfRange                  (* [v[0]] on an empty vector *)
| OutOfFuel.                  (* the stepping loop did not finish *)

Arguments Ok {A} a.
Arguments CheckFailed {A} c.
Arguments OutOfRange {A}.
Arguments OutOfFuel {A}.

Definition bind {A B} (m : outcome A) (k : A -> outcome B) : outcome B :=
  match m with
  | Ok a => k a
  | CheckFailed c => CheckFailed c
  | OutOfRange => OutOfRange
  | OutOfFuel => OutOfFuel
  end.

Declare Scope outcome_scope.
Delimit Scope outcome_scope with outcome.
Notation "x <- m ;; k" := (bind m (fun x => k))
  (at level 100, m at next level, right associativity) : outcome_scope.
Notation "m ;;; k" := (bind m (fun _ => k))
  (at level 100, right associativity) : outcome_scope.
Local Open Scope outcome_scope.

Definition check (c : CheckId) (b : bool) : outcome unit :=
  if b then Ok tt else CheckFailed c.

(** [v[0]] *)
Definition front {A} (v : list A) : outcome A :=
  match v with
  | x :: _ => Ok x
  | [] => OutOfRange
  end.

(** A [for (auto &&x : l)] loop whose body may fail. *)
Fixpoint for_each {A S} (body : S -> A -> outcome S) (l : list A) (s : S)
  : outcome S :=
  match l with
  | [] => Ok s
  | a :: l' => s' <- body s a ;; for_each body l' s'
  end.

(** ** The waypoint sampler (lines 202-221) *)

Section Sampler.
Context {Waypoint : Type} {M : RoadMap Waypoint}.
Variable RoadAccuracy : F32.float.

(** [for (float Dist = RoadAccuracy; Dist < MaxDist; Dist += RoadAccuracy)] *)
Fixpoint sample_loop (fuel : nat) (Successor : Waypoint)
    (MaxDist Dist : F32.float) (Waypoints : list Waypoint)
  : outcome (list Waypoint) :=
  match fuel with
  | O => OutOfFuel
  | S fuel' =>
      if F32.ltb Dist MaxDist then
        let NewWaypoint := GetNext Successor Dist in
        check CheckDist (F32.ltb Dist MaxDist) ;;;
        check CheckSingle (Nat.eqb (length NewWaypoint) 1) ;;;
        w <- front NewWaypoint ;;
        sample_loop fuel' Successor MaxDist (F32.add Dist RoadAccuracy)
          (Waypoints ++ [w])
      else Ok Waypoints
  end.

(** The distance of the last sample,
    [CarlaMath::clamp(MaxDist - 0.1f, 0.f, MaxDist)]. *)
Definition final_dist (MaxDist : F32.float) : F32.float :=
  F32.clamp (F32.sub MaxDist F32.tenth) F32.zero MaxDist.

Definition sample_lane (fuel : nat) (Successor : Waypoint)
    (MaxDist : F32.float) : outcome (list Waypoint) :=
  let Waypoints := [Successor] in
  Waypoints <- sample_loop fuel Successor MaxDist RoadAccuracy Waypoints ;;
  w <- front (GetNext Successor (final_dist MaxDist)) ;;
  let Waypoints := Waypoints ++ [w] in
  check CheckSize (Nat.leb 2 (length Waypoints)) ;;;
  Ok Waypoints.

(** The distances at which the stepping loop queries the map; [None] when
    the fuel does not suffice. *)
Fixpoint loop_dists (fuel : nat) (MaxDist Dist : F32.float)
  : option (list F32.float) :=
  match fuel with
  | O => None
  | S fuel' =>
      if F32.ltb Dist MaxDist then
        option_map (cons Dist)
          (loop_dists fuel' MaxDist (F32.add Dist RoadAccuracy))
      else Some []
  end.

End Sampler.

(** [WaypointVector2FVectorArray] (lines 20-34) *)
Definition WaypointVector2FVectorArray {Waypoint} {M : RoadMap Waypoint}
    (Waypoints : list Waypoint) (TriggersHeight : F32.float) : list FVector :=
  List.map (fun w => FVector_add (location (ComputeTransform w))
                       (mkFVector F32.zero F32.zero TriggersHeight))
    Waypoints.

(** ** Actors and the world

    [GetWorld()->SpawnActor<T>()] returns a pointer to a new actor.  The world
    is the list of all actors ever spawned, a pointer is an index into it, and
    [Destroy()] marks the actor (it is a no-op on an actor already marked).
    Spawning is taken to succeed. *)

Abbreviation ActorId := nat (only parsing).

Record ARoutePlanner := mkRoutePlanner {
  bIsIntersection : bool;
  BoxExtent : FVector;
  PlannerRotation : FRotator;
  PlannerLocation : FVector;
  (** what [AddRoute(probability, positions)] stored, oldest first *)
  Routes : list (F32.float * list FVector)
}.

Record AVehicleSpawnPoint := mkSpawnPoint {
  SpawnRotation : FRotator;
  SpawnLocation : FVector
}.

Inductive ActorData :=
| RoutePlannerActor (p : ARoutePlanner)
| VehicleSpawnPointActor (v : AVehicleSpawnPoint).

Record Actor := mkActor { pending_kill : bool; data : ActorData }.

Definition origin : FVector := mkFVector F32.zero F32.zero F32.zero.
Definition no_rotation : FRotator := mkFRotator F32.zero F32.zero F32.zero.

Definition SpawnActor (d : ActorData) (World : list Actor)
  : ActorId * list Actor :=
  (length World, World ++ [mkActor false d]).

Definition Destroy (a : ActorId) (World : list Actor) : list Actor :=
  alter (fun x => mkActor true (data x)) a World.

(** [p->field = ...] and [p->AddRoute(...)] on a route planner *)
Definition update_planner (f : ARoutePlanner -> ARoutePlanner) (p : ActorId)
    (World : list Actor) : list Actor :=
  alter (fun x => match data x with
                  | RoutePlannerActor r =>
                      mkActor (pending_kill x) (RoutePlannerActor (f r))
                  | _ => x
                  end) p World.

Definition planner_at (World : list Actor) (p : ActorId)
  : option ARoutePlanner :=
  match World !! p with
  | Some (mkActor _ (RoutePlannerActor r)) => Some r
  | _ => None
  end.

Definition set_bIsIntersection (b : bool) (r : ARoutePlanner) :=
  mkRoutePlanner b (BoxExtent r) (PlannerRotation r) (PlannerLocation r)
    (Routes r).
Definition SetBoxExtent (e : FVector) (r : ARoutePlanner) :=
  mkRoutePlanner (bIsIntersection r) e (PlannerRotation r) (PlannerLocation r)
    (Routes r).
Definition SetActorRotation (q : FRotator) (r : ARoutePlanner) :=
  mkRoutePlanner (bIsIntersection r) (BoxExtent r) q (PlannerLocation r)
    (Routes r).
Definition SetActorLocation (l : FVector) (r : ARoutePlanner) :=
  mkRoutePlanner (bIsIntersection r) (BoxExtent r) (PlannerRotation r) l
    (Routes r).

(** Modelled from the spec: [ARoutePlanner::AddRoute] (RoutePlanner.cpp is not
    among the sources).  A route group holds a list of (weight, polyline)
    entries; a call appends one entry. *)
Definition AddRoute (probability : F32.float) (Positions : list FVector)
    (r : ARoutePlanner) :=
  mkRoutePlanner (bIsIntersection r) (BoxExtent r) (PlannerRotation r)
    (PlannerLocation r) (Routes r ++ [(probability, Positions)]).

(** A freshly spawned [ARoutePlanner]. *)
Definition new_planner : ARoutePlanner :=
  mkRoutePlanner false origin no_rotation origin [].

(** ** The actor *)

Record AOpenDriveActor := mkOpenDriveActor {
  World : list Actor;
  (** the planners whose routes are currently drawn as persistent lines *)
  DebugLines : list ActorId;
  RoutePlanners : list (option ActorId);
  VehicleSpawners : list (option ActorId);
  RoadAccuracy : F32.float;
  TriggersHeight : F32.float;
  SpawnersHeight : F32.float;
  bGenerateRoutes : bool;
  bRemoveRoutes : bool;
  bShowDebug : bool;
  bRemoveCurrentSpawners : bool;
  bAddSpawners : bool;
  bOnIntersections : bool
}.

Definition with_World (w : list Actor) (a : AOpenDriveActor) :=
  mkOpenDriveActor w (DebugLines a) (RoutePlanners a) (VehicleSpawners a)
    (RoadAccuracy a) (TriggersHeight a) (SpawnersHeight a) (bGenerateRoutes a)
    (bRemoveRoutes a) (bShowDebug a) (bRemoveCurrentSpawners a)
    (bAddSpawners a) (bOnIntersections a).
Definition with_DebugLines (d : list ActorId) (a : AOpenDriveActor) :=
  mkOpenDriveActor (World a) d (RoutePlanners a) (VehicleSpawners a)
    (RoadAccuracy a) (TriggersHeight a) (SpawnersHeight a) (bGenerateRoutes a)
    (bRemoveRoutes a) (bShowDebug a) (bRemoveCurrentSpawners a)
    (bAddSpawners a) (bOnIntersections a).
Definition with_RoutePlanners (r : list (option ActorId))
    (a : AOpenDriveActor) :=
  mkOpenDriveActor (World a) (DebugLines a) r (VehicleSpawners a)
    (RoadAccuracy a) (TriggersHeight a) (SpawnersHeight a) (bGenerateRoutes a)
    (bRemoveRoutes a) (bShowDebug a) (bRemoveCurrentSpawners a)
    (bAddSpawners a) (bOnIntersections a).
Definition with_VehicleSpawners (v : list (option ActorId))
    (a : AOpenDriveActor) :=
  mkOpenDriveActor (World a) (DebugLines a) (RoutePlanners a) v
    (RoadAccuracy a) (TriggersHeight a) (SpawnersHeight a) (bGenerateRoutes a)
    (bRemoveRoutes a) (bShowDebug a) (bRemoveCurrentSpawners a)
    (bAddSpawners a) (bOnIntersections a).
Definition with_bGenerateRoutes (b : bool) (a : AOpenDriveActor) :=
  mkOpenDriveActor (World a) (DebugLines a) (RoutePlanners a)
    (VehicleSpawners a) (RoadAccuracy a) (TriggersHeight a) (SpawnersHeight a)
    b (bRemoveRoutes a) (bShowDebug a) (bRemoveCurrentSpawners a)
    (bAddSpawners a) (bOnIntersections a).
Definition with_bRemoveRoutes (b : bool) (a : AOpenDriveActor) :=
  mkOpenDriveActor (World a) (DebugLines a) (RoutePlanners a)
    (VehicleSpawners a) (RoadAccuracy a) (TriggersHeight a) (SpawnersHeight a)
    (bGenerateRoutes a) b (bShowDebug a) (bRemoveCurrentSpawners a)
    (bAddSpawners a) (bOnIntersections a).
Definition with_bRemoveCurrentSpawners (b : bool) (a : AOpenDriveActor) :=
  mkOpenDriveActor (World a) (DebugLines a) (RoutePlanners a)
    (VehicleSpawners a) (RoadAccuracy a) (TriggersHeight a) (SpawnersHeight a)
    (bGenerateRoutes a) (bRemoveRoutes a) (bShowDebug a) b
    (bAddSpawners a) (bOnIntersections a).

(** ** [AOpenDriveActor::BuildRoutes] (lines 142-243) *)

(** The state of one pass: the local [AlreadyVisited] vector and the actor. *)
Record BuildState := mkBuildState {
  AlreadyVisited : list (IdType * Z);
  self : AOpenDriveActor
}.

(** The test of line 195: [std::any_of] over [AlreadyVisited]. *)
Definition is_visited (AlreadyVisited : list (IdType * Z))
    (Identifier : IdType * Z) : bool :=
  existsb (fun i => Z.eqb (fst i) (fst Identifier)
                    && Z.eqb (snd i) (snd Identifier)) AlreadyVisited.

Section Builder.
Context {Waypoint : Type} {M : RoadMap Waypoint}.
Variable fuel : nat.

(** Lines 226-236: create the planner of this anchor when there is none. *)
Definition ensure_planner (EndLaneWaypoint : Waypoint)
    (Successors : list Waypoint) (RoutePlanner : option ActorId)
    (a : AOpenDriveActor) : ActorId * list Actor :=
  match RoutePlanner with
  | Some p => (p, World a)
  | None =>
      let '(p, w) := SpawnActor (RoutePlannerActor new_planner) (World a) in
      let w := update_planner
                 (set_bIsIntersection (existsb IsIntersection Successors))
                 p w in
      let w := update_planner
                 (SetBoxExtent (mkFVector (F32.of_Z 70) (F32.of_Z 70)
                                  (F32.of_Z 50))) p w in
      let w := update_planner
                 (SetActorRotation
                    (rotation (ComputeTransform EndLaneWaypoint))) p w in
      let w := update_planner
                 (SetActorLocation
                    (FVector_add
                       (location (ComputeTransform EndLaneWaypoint))
                       (mkFVector F32.zero F32.zero (TriggersHeight a))))
                 p w in
      (p, w)
  end.

(** The body of the loop over [Successors] (lines 187-240).  The local
    [RoutePlanner] pointer is the first component of the loop state. *)
Definition successor_body (EndLaneWaypoint : Waypoint)
    (Successors : list Waypoint) (st : option ActorId * BuildState)
    (Successor : Waypoint) : outcome (option ActorId * BuildState) :=
  let '(RoutePlanner, bs) := st in
  let RoadId := GetRoadId Successor in
  let LaneId := GetLaneId Successor in
  let Identifier := (RoadId, LaneId) in
  if negb (is_visited (AlreadyVisited bs) Identifier) then
    let visited := AlreadyVisited bs ++ [Identifier] in
    let MaxDist := GetLength RoadId in
    Waypoints <- sample_lane (RoadAccuracy (self bs)) fuel Successor MaxDist ;;
    let Positions :=
      WaypointVector2FVectorArray Waypoints (TriggersHeight (self bs)) in
    let '(p, w) :=
      ensure_planner EndLaneWaypoint Successors RoutePlanner (self bs) in
    let w := update_planner (AddRoute F32.one Positions) p w in
    Ok (Some p,
        mkBuildState visited
          (with_RoutePlanners (RoutePlanners (self bs) ++ [Some p])
             (with_World w (self bs))))
  else Ok st.

(** The body of the loop over [MapLaneBeginWaypoint] (lines 177-242). *)
Definition anchor_body (bs : BuildState) (EndLaneWaypoint : Waypoint)
  : outcome BuildState :=
  let Successors := GetSuccessors EndLaneWaypoint in
  st <- for_each (successor_body EndLaneWaypoint Successors) Successors
          (None, bs) ;;
  Ok (snd st).

(** One pass over the loaded map, keeping the final [AlreadyVisited]. *)
Definition build_pass (a : AOpenDriveActor) : outcome BuildState :=
  for_each anchor_body GenerateLaneEnd (mkBuildState [] a).

(** [ParseError] is what [OpenDrive::Load] wrote into its error argument;
    the class instance [M] is the loaded map. The error is only logged. *)
Definition BuildRoutes (ParseError : string) (a : AOpenDriveActor)
  : outcome AOpenDriveActor :=
  if Nat.ltb 0 (String.length ParseError) then Ok a
  else bs <- build_pass a ;; Ok (self bs).

End Builder.

(** ** [RemoveRoutes], [RemoveSpawners], [DebugRoutes], [AddSpawners] *)

(** [for (i ...) if (v[i] != nullptr) v[i]->Destroy();] *)
Fixpoint destroy_all (v : list (option ActorId)) (World : list Actor)
  : list Actor :=
  match v with
  | [] => World
  | Some p :: v' => destroy_all v' (Destroy p World)
  | None :: v' => destroy_all v' World
  end.

Definition RemoveRoutes (a : AOpenDriveActor) : AOpenDriveActor :=
  with_RoutePlanners []
    (with_World (destroy_all (RoutePlanners a) (World a)) a).

Definition RemoveSpawners (a : AOpenDriveActor) : AOpenDriveActor :=
  with_VehicleSpawners []
    (with_World (destroy_all (VehicleSpawners a) (World a)) a).

(** [DrawRoutes()] of every non-null planner draws persistent debug lines. *)
Definition DebugRoutes (a : AOpenDriveActor) : AOpenDriveActor :=
  with_DebugLines (DebugLines a ++ omap id (RoutePlanners a)) a.

(** [FlushPersistentDebugLines(GetWorld())] (editor builds) *)
Definition RemoveDebugRoutes (a : AOpenDriveActor) : AOpenDriveActor :=
  with_DebugLines [] a.

(** The body of the loop of [AddSpawners] (lines 278-295). A pointer that does
    not lead to a route planner is passed over. *)
Definition spawner_body (a : AOpenDriveActor) (rp : option ActorId)
  : AOpenDriveActor :=
  match rp with
  | None => a
  | Some p =>
      match planner_at (World a) p with
      | None => a
      | Some r =>
          if negb (bOnIntersections a) && bIsIntersection r then a
          else
            let '(s, w) :=
              SpawnActor
                (VehicleSpawnPointActor
                   (mkSpawnPoint (PlannerRotation r)
                      (FVector_add (PlannerLocation r)
                         (mkFVector F32.zero F32.zero (SpawnersHeight a)))))
                (World a) in
            with_VehicleSpawners (VehicleSpawners a ++ [Some s])
              (with_World w a)
      end
  end.

Definition AddSpawners (a : AOpenDriveActor) : AOpenDriveActor :=
  fold_left spawner_body (RoutePlanners a) a.

(** ** [AOpenDriveActor::PostEditChangeProperty] (lines 83-139)

    The editor has already written the new value of the property into the
    actor when it calls the handler. *)

Inductive FName :=
| NAME_bGenerateRoutes
| NAME_bRemoveRoutes
| NAME_bShowDebug
| NAME_bRemoveCurrentSpawners
| NAME_None.

Definition FName_eqb (x y : FName) : bool :=
  match x, y with
  | NAME_bGenerateRoutes, NAME_bGenerateRoutes
  | NAME_bRemoveRoutes, NAME_bRemoveRoutes
  | NAME_bShowDebug, NAME_bShowDebug
  | NAME_bRemoveCurrentSpawners, NAME_bRemoveCurrentSpawners
  | NAME_None, NAME_None => true
  | _, _ => false
  end.

Section Editor.
Context {Waypoint : Type} {M : RoadMap Waypoint}.
Variable fuel : nat.

(** Lines 90-106, the rebuild command. *)
Definition on_generate_routes (ParseError : string) (a : AOpenDriveActor)
  : outcome AOpenDriveActor :=
  if bGenerateRoutes a then
    let a := with_bGenerateRoutes false a in
    let a := RemoveRoutes a in
    let a := RemoveSpawners a in
    a <- BuildRoutes fuel ParseError a ;;
    let a := if bAddSpawners a then AddSpawners a else a in
    let a := if bShowDebug a then DebugRoutes a else a in
    Ok a
  else Ok a.

Definition PostEditChangeProperty (ParseError : string)
    (PropertyName : FName) (a : AOpenDriveActor) : outcome AOpenDriveActor :=
  a <- (if FName_eqb PropertyName NAME_bGenerateRoutes
        then on_generate_routes ParseError a else Ok a) ;;
  let a :=
    if FName_eqb PropertyName NAME_bRemoveRoutes then
      if bRemoveRoutes a then
        let a := with_bRemoveRoutes false a in
        let a := RemoveDebugRoutes a in
        let a := RemoveSpawners a in
        RemoveRoutes a
      else a
    else a in
  let a :=
    if FName_eqb PropertyName NAME_bShowDebug then
      if bShowDebug a then DebugRoutes a else RemoveDebugRoutes a
    else a in
  let a :=
    if FName_eqb PropertyName NAME_bRemoveCurrentSpawners then
      if bRemoveCurrentSpawners a then
        let a := with_bRemoveCurrentSpawners false a in
        RemoveSpawners a
      else a
    else a in
  Ok a.

End Editor.

(** ** Ghost definitions used in the statements *)

(** The successors of one anchor that the loop samples, given the lanes
    visited before the anchor: those absent from the growing visited list. *)
Fixpoint contributing {Waypoint} {M : RoadMap Waypoint}
    (visited : list (IdType * Z)) (Successors : list Waypoint)
  : list Waypoint :=
  match Successors with
  | [] => []
  | s :: rest =>
      let Identifier := (GetRoadId s, GetLaneId s) in
      if is_visited visited Identifier then contributing visited rest
      else s :: contributing (visited ++ [Identifier]) rest
  end.

(** The number of polylines held by all route planners of a world. *)
Definition route_count (World : list Actor) : nat :=
  list_sum (List.map (fun x => match data x with
                            | RoutePlannerActor r => length (Routes r)
                            | _ => O
                            end) World).

(** ** Test networks *)

(** Modelled from the spec: [carla::road::element::Waypoint] and
    [WaypointGenerator::GetNext] are not among the sources.  A waypoint of the
    test networks is a lane (road id, lane id) and an arc-length position on
    it; [GetNext] answers with the one point that lies the given distance
    further on the same lane, and the world position of a waypoint is its arc
    length on the x axis. *)
Record LanePoint := mkLanePoint { lp_road : Z; lp_lane : Z; lp_s : F32.float }.

Definition lane_start (road : Z) : LanePoint := mkLanePoint road (-1) F32.zero.

Definition lp_transform (w : LanePoint) : Transform :=
  mkTransform (mkFVector (lp_s w) F32.zero F32.zero) no_rotation.

Definition lp_next (w : LanePoint) (d : F32.float) : list LanePoint :=
  [mkLanePoint (lp_road w) (lp_lane w) (F32.add (lp_s w) d)].

(** A network given by its anchors, successor table, junction roads and road
    lengths. *)
Definition table_map (anchors : list LanePoint)
    (succ : Z -> list LanePoint) (junction : Z -> bool)
    (len : Z -> F32.float) : RoadMap LanePoint :=
  {| GetRoadId := lp_road;
     GetLaneId := lp_lane;
     IsIntersection := fun w => junction (lp_road w);
     ComputeTransform := lp_transform;
     GenerateLaneEnd := anchors;
     GetSuccessors := fun w => succ (lp_road w);
     GetNext := lp_next;
     GetLength := len |}.

(** An actor with an empty world and the default settings: accuracy [acc],
    no vertical offsets. *)
Definition fresh_actor (acc : F32.float) : AOpenDriveActor :=
  mkOpenDriveActor [] [] [] [] acc F32.zero F32.zero
    false false false false false false.

(** The lanes of the test networks: 30 units for road 1, 20 for the others. *)
Definition test_length (road : Z) : F32.float :=
  if Z.eqb road 1 then F32.of_Z 30 else F32.of_Z 20.

Definition lane_end (road : Z) : LanePoint :=
  mkLanePoint road (-1) (test_length road).

(** Scenario B of the spec: lane A (road 1, length 30) whose sole successor is
    lane B (road 2, length 20); lane B is a dead end. *)
Definition scenario_B : RoadMap LanePoint :=
  table_map [lane_end 1; lane_end 2]
    (fun road => if Z.eqb road 1 then [lane_start 2] else [])
    (fun _ => false) test_length.

(** A fork: the lane of road 1 continues into the lanes of roads 2 and 3. *)
Definition fork : RoadMap LanePoint :=
  table_map [lane_end 1]
    (fun road => if Z.eqb road 1 then [lane_start 2; lane_start 3] else [])
    (fun _ => false) test_length.

(** A merge inside a junction: road 1 continues into road 2, road 4 into
    roads 2 and 3; road 2 is the only junction road. *)
Definition merge : RoadMap LanePoint :=
  table_map [lane_end 1; lane_end 4]
    (fun road => if Z.eqb road 1 then [lane_start 2]
                 else if Z.eqb road 4 then [lane_start 2; lane_start 3]
                 else [])
    (fun road => Z.eqb road 2) test_length.

(** A malformed map: every geometry query is answered by two waypoints, the
    point on the lane and its neighbour on lane -2. *)
Definition two_valued : RoadMap LanePoint :=
  {| GetRoadId := lp_road;
     GetLaneId := lp_lane;
     IsIntersection := fun _ => false;
     ComputeTransform := lp_transform;
     GenerateLaneEnd := [lane_end 1];
     GetSuccessors := fun w => if Z.eqb (lp_road w) 1 then [lane_start 2]
                               else [];
     GetNext := fun w d =>
       [mkLanePoint (lp_road w) (lp_lane w) (F32.add (lp_s w) d);
        mkLanePoint (lp_road w) (-2) (F32.add (lp_s w) d)];
     GetLength := test_length |}.

(** The literals [0.05f], [10.f], [20.f] and [19.9f]. *)
Definition twentieth : F32.float :=
  Eval vm_compute in F32.div (F32.of_Z 1) (F32.of_Z 20).
Definition ten : F32.float := Eval vm_compute in F32.of_Z 10.
Definition twenty : F32.float := Eval vm_compute in F32.of_Z 20.
Definition nineteen_nine : F32.float :=
  Eval vm_compute in F32.div (F32.of_Z 199) (F32.of_Z 10).

(** The point of a test lane at arc length [s]. *)
Definition at_s (road : Z) (s : F32.float) : LanePoint :=
  mkLanePoint road (-1) s.
Definition on_x (s : F32.float) : FVector := mkFVector s F32.zero F32.zero.

(** An actor holding the routes of an earlier build and asked to rebuild. *)
Definition built_actor : AOpenDriveActor :=
  mkOpenDriveActor
    [mkActor false
       (RoutePlannerActor
          (mkRoutePlanner false origin no_rotation origin
             [(F32.one, [on_x F32.zero; on_x ten])]))]
    [] [Some O] [] ten F32.zero F32.zero
    true false false false false false.

(** ** Ghost definitions of the route groups *)

Section Groups.
Context {Waypoint : Type} {M : RoadMap Waypoint}.

Definition ident (w : Waypoint) : IdType * Z := (GetRoadId w, GetLaneId w).

(** [poly] is the polyline obtained by sampling the lane entered at [s]. *)
Definition sampled (fuel : nat) (acc height : F32.float) (s : Waypoint)
    (poly : list FVector) : Prop :=
  exists Waypoints,
    sample_lane acc fuel s (GetLength (GetRoadId s)) = Ok Waypoints
    /\ poly = WaypointVector2FVectorArray Waypoints height.

(** The planner of an anchor as lines 228-235 leave it. *)
Definition anchor_planner (height : F32.float) (EndLaneWaypoint : Waypoint)
  : ARoutePlanner :=
  mkRoutePlanner
    (existsb IsIntersection (GetSuccessors EndLaneWaypoint))
    (mkFVector (F32.of_Z 70) (F32.of_Z 70) (F32.of_Z 50))
    (rotation (ComputeTransform EndLaneWaypoint))
    (FVector_add (location (ComputeTransform EndLaneWaypoint))
       (mkFVector F32.zero F32.zero height))
    [].

Definition add_routes (polys : list (list FVector)) (r : ARoutePlanner)
  : ARoutePlanner :=
  fold_left (fun r poly => AddRoute F32.one poly r) polys r.

(** [x] is the route group of anchor [E]: its planner, holding the polylines
    [polys] of the successors of [E] that were not in [visited]. *)
Definition group_of (fuel : nat) (a : AOpenDriveActor) (E : Waypoint)
    (visited : list (IdType * Z)) (polys : list (list FVector))
    (x : Actor) : Prop :=
  Forall2 (sampled fuel (RoadAccuracy a) (TriggersHeight a))
    (contributing visited (GetSuccessors E)) polys
  /\ polys <> []
  /\ x = mkActor false
           (RoutePlannerActor
              (add_routes polys (anchor_planner (TriggersHeight a) E))).

(** What holds of the state between two anchors of a pass started on [a0]:
    the visited list has no repetition; the world is the old one followed by
    the route groups of the pass, which hold one polyline per visited lane;
    the collection is the old one followed by one pointer per visited lane,
    each to an actor of the world. *)
Definition pass_inv (fuel : nat) (a0 : AOpenDriveActor) (bs : BuildState)
  : Prop :=
  NoDup (AlreadyVisited bs)
  /\ RoadAccuracy (self bs) = RoadAccuracy a0
  /\ TriggersHeight (self bs) = TriggersHeight a0
  /\ (exists groups,
        World (self bs) = World a0 ++ groups
        /\ route_count groups = length (AlreadyVisited bs)
        /\ Forall (fun x => exists E visited polys,
                      In E GenerateLaneEnd
                      /\ group_of fuel a0 E visited polys x) groups)
  /\ (exists added,
        RoutePlanners (self bs) = RoutePlanners a0 ++ added
        /\ length added = length (AlreadyVisited bs)
        /\ Forall (fun q => exists p,
                      q = Some p
                      /\ (length (World a0) <= p)%nat
                      /\ (p < length (World (self bs)))%nat)
             added).

End Groups.

(** ** Expected results on the test networks *)

(** The polyline of a lane of length 20 sampled every 10 units. *)
Definition polyline_20 : list FVector :=
  [on_x F32.zero; on_x ten; on_x nineteen_nine].

(** The route group of anchor [E] of map [M] holding [n] such polylines. *)
Definition test_group (M : RoadMap LanePoint) (E : LanePoint) (n : nat)
  : Actor :=
  mkActor false
    (RoutePlannerActor
       (add_routes (repeat polyline_20 n)
          (anchor_planner (M := M) F32.zero E))).

(** [fresh_actor ten] after a build that left world [W] and collection [R]. *)
Definition after_build (W : list Actor) (R : list (option ActorId))
  : AOpenDriveActor :=
  with_RoutePlanners R (with_World W (fresh_actor ten)).

Definition scenario_B_built : AOpenDriveActor :=
  after_build [test_group scenario_B (lane_end 1) 1] [Some O].

Definition fork_built : AOpenDriveActor :=
  after_build [test_group fork (lane_end 1) 2] [Some O; Some O].

Definition merge_built : AOpenDriveActor :=
  after_build
    [test_group merge (lane_end 1) 1; test_group merge (lane_end 4) 1]
    [Some O; Some 1%nat].

(** ** The plan of a pass

    What a pass does to the actor, computed without the actor: the polylines
    of the lanes to sample, anchor by anchor.  The builder is compared with it
    below. *)

Section Plan.
Context {Waypoint : Type} {M : RoadMap Waypoint}.
Variable fuel : nat.
Variables acc height : F32.float.

(** The polylines of the lanes entered at the waypoints of [l], in order;
    the first lane that cannot be sampled decides the failure. *)
Fixpoint sample_all (l : list Waypoint) : outcome (list (list FVector)) :=
  match l with
  | [] => Ok []
  | s :: rest =>
      Waypoints <- sample_lane acc fuel s (GetLength (GetRoadId s)) ;;
      polys <- sample_all rest ;;
      Ok (WaypointVector2FVectorArray Waypoints height :: polys)
  end.

(** For each anchor that has a successor not visited before, in order, the
    anchor and the polylines of those successors. *)
Fixpoint pass_plan (anchors : list Waypoint) (visited : list (IdType * Z))
  : outcome (list (Waypoint * list (list FVector))) :=
  match anchors with
  | [] => Ok []
  | E :: rest =>
      let lanes := contributing visited (GetSuccessors E) in
      polys <- sample_all lanes ;;
      plan <- pass_plan rest (visited ++ List.map ident lanes) ;;
      Ok (match polys with
          | [] => plan
          | _ :: _ => (E, polys) :: plan
          end)
  end.

(** The visited list after the anchors. *)
Fixpoint pass_visited (anchors : list Waypoint) (visited : list (IdType * Z))
  : list (IdType * Z) :=
  match anchors with
  | [] => visited
  | E :: rest =>
      pass_visited rest
        (visited
           ++ List.map ident (contributing visited (GetSuccessors E)))
  end.

(** The lanes that a pass samples, in the order it samples them. *)
Fixpoint pass_lanes (anchors : list Waypoint) (visited : list (IdType * Z))
  : list Waypoint :=
  match anchors with
  | [] => []
  | E :: rest =>
      let lanes := contributing visited (GetSuccessors E) in
      lanes ++ pass_lanes rest (visited ++ List.map ident lanes)
  end.

End Plan.

Section Install.
Context {Waypoint : Type} {M : RoadMap Waypoint}.

(** The route group of one entry of a plan. *)
Definition plan_group (height : F32.float)
    (entry : Waypoint * list (list FVector)) : Actor :=
  mkActor false
    (RoutePlannerActor
       (add_routes (snd entry) (anchor_planner height (fst entry)))).

(** The pointers a plan adds to the collection when its first group is
    spawned at index [n]: one copy per polyline. *)
Fixpoint plan_pointers (n : nat) (plan : list (Waypoint * list (list FVector)))
  : list (option ActorId) :=
  match plan with
  | [] => []
  | entry :: rest =>
      repeat (Some n) (length (snd entry)) ++ plan_pointers (S n) rest
  end.

(** The actor after the groups of a plan are spawned and listed. *)
Definition install (plan : list (Waypoint * list (list FVector)))
    (a : AOpenDriveActor) : AOpenDriveActor :=
  with_RoutePlanners
    (RoutePlanners a ++ plan_pointers (length (World a)) plan)
    (with_World (World a ++ List.map (plan_group (TriggersHeight a)) plan) a).

(** The state after the successors of anchor [E], given their polylines. *)
Definition after_anchor (bs : BuildState) (E : Waypoint)
    (polys : list (list FVector)) : BuildState :=
  mkBuildState
    (AlreadyVisited bs
       ++ List.map ident
            (contributing (AlreadyVisited bs) (GetSuccessors E)))
    (match polys with
     | [] => self bs
     | _ :: _ => install [(E, polys)] (self bs)
     end).

End Install.

(** ** Ghost definitions for the spawners and for [Destroy] *)

(** The spawn point that [AddSpawners] creates for one entry of the
    collection, if any. *)
Definition spawner_of (a : AOpenDriveActor) (rp : option ActorId)
  : option Actor :=
  match rp with
  | None => None
  | Some p =>
      match planner_at (World a) p with
      | None => None
      | Some r =>
          if negb (bOnIntersections a) && bIsIntersection r then None
          else Some (mkActor false
                       (VehicleSpawnPointActor
                          (mkSpawnPoint (PlannerRotation r)
                             (FVector_add (PlannerLocation r)
                                (mkFVector F32.zero F32.zero
                                   (SpawnersHeight a))))))
      end
  end.

Definition is_spawn_point (x : Actor) : Prop :=
  match data x with
  | VehicleSpawnPointActor _ => True
  | RoutePlannerActor _ => False
  end.

(** Index [i] is among the non-null pointers of [v]. *)
Definition listed (i : nat) (v : list (option ActorId)) : bool :=
  existsb (fun q => match q with
                    | Some p => Nat.eqb p i
                    | None => false
                    end) v.

(** An actor after [Destroy()]. *)
Definition killed (x : Actor) : Actor := mkActor true (data x).


(** Scenario A of the spec: one lane of length 50 that ends in a dead end. *)
Definition dead_end : RoadMap LanePoint :=
  table_map [mkLanePoint 1 (-1) (F32.of_Z 50)] (fun _ => [])
    (fun _ => false) (fun _ => F32.of_Z 50).

Ltac run_outcome H := cbn [bind check front] in H.

(** * Properties *)

(** ** Comparison of floats *)

Lemma SFcompare_antisym (x y : spec_float) :
  SFcompare y x = option_map CompOpp (SFcompare x y).
Proof.
  destruct x as [sx|sx| |sx mx ex], y as [sy|sy| |sy my ey]; simpl;
    try reflexivity;
    try (destruct sx; reflexivity); try (destruct sy; reflexivity);
    try (destruct sx, sy; reflexivity).
  rewrite (Z.compare_antisym ex ey).
  rewrite !Pos.compare_cont_spec; simpl.
  rewrite (Pos.compare_antisym mx my).
  destruct sx, sy; simpl; try reflexivity;
    destruct (ex ?= ey); simpl; try reflexivity;
    destruct (mx ?= my)%positive; reflexivity.
Qed.

(** [b <= a] excludes [a < b]. *)
Lemma leb_ltb_false (a b : F32.float) :
  F32.leb b a = true -> F32.ltb a b = false.
Proof.
  unfold F32.leb, F32.ltb, SFleb, SFltb.
  rewrite (SFcompare_antisym b a).
  destruct (SFcompare b a) as [[]|]; simpl; congruence.
Qed.

(** ** The sampler *)

Section SamplerFacts.
Context {Waypoint : Type} {M : RoadMap Waypoint}.
Variable RoadAccuracy : F32.float.

(** A query of the loop that is answered by exactly one waypoint lets the
    loop go on; any other answer is fatal. *)
Lemma sample_loop_step fuel Successor MaxDist Dist Waypoints :
  F32.ltb Dist MaxDist = true ->
  sample_loop RoadAccuracy (S fuel) Successor MaxDist Dist Waypoints =
    match GetNext Successor Dist with
    | [w] => sample_loop RoadAccuracy fuel Successor MaxDist
               (F32.add Dist RoadAccuracy) (Waypoints ++ [w])
    | _ => CheckFailed CheckSingle
    end.
Proof.
  intros Hlt. cbn [sample_loop]. rewrite Hlt. cbn [bind check].
  destruct (GetNext Successor Dist) as [|w [|w' ws]]; reflexivity.
Qed.

Lemma sample_loop_exit fuel Successor MaxDist Dist Waypoints :
  F32.ltb Dist MaxDist = false ->
  sample_loop RoadAccuracy (S fuel) Successor MaxDist Dist Waypoints
    = Ok Waypoints.
Proof. intros Hlt. cbn [sample_loop]. now rewrite Hlt. Qed.

Lemma sample_loop_grows fuel Successor MaxDist :
  forall Dist Waypoints out,
    sample_loop RoadAccuracy fuel Successor MaxDist Dist Waypoints = Ok out ->
    (length Waypoints <= length out)%nat.
Proof.
  induction fuel as [|fuel IH]; intros Dist Waypoints out H.
  - discriminate.
  - destruct (F32.ltb Dist MaxDist) eqn:Hlt.
    + rewrite sample_loop_step in H by assumption.
      destruct (GetNext Successor Dist) as [|w [|w' ws]];
        try discriminate.
      apply IH in H. rewrite length_app in H. simpl in H. lia.
    + rewrite sample_loop_exit in H by assumption.
      inversion H; subst. lia.
Qed.

(** The loop condition guards [check(Dist < MaxDist)], and the loop has no
    size check: neither can be the reason of a failure. *)
Lemma sample_loop_failure fuel Successor MaxDist :
  forall Dist Waypoints c,
    sample_loop RoadAccuracy fuel Successor MaxDist Dist Waypoints
      = CheckFailed c -> c = CheckSingle.
Proof.
  induction fuel as [|fuel IH]; intros Dist Waypoints c H.
  - discriminate.
  - destruct (F32.ltb Dist MaxDist) eqn:Hlt.
    + rewrite sample_loop_step in H by assumption.
      destruct (GetNext Successor Dist) as [|w [|w' ws]];
        try congruence. eauto.
    + rewrite sample_loop_exit in H by assumption. discriminate.
Qed.

(** Inside the loop [v[0]] is never reached on an empty vector. *)
Lemma sample_loop_in_range fuel Successor MaxDist :
  forall Dist Waypoints,
    sample_loop RoadAccuracy fuel Successor MaxDist Dist Waypoints
      <> OutOfRange.
Proof.
  induction fuel as [|fuel IH]; intros Dist Waypoints H.
  - discriminate.
  - destruct (F32.ltb Dist MaxDist) eqn:Hlt.
    + rewrite sample_loop_step in H by assumption.
      destruct (GetNext Successor Dist) as [|w [|w' ws]];
        try discriminate. eapply IH; eauto.
    + rewrite sample_loop_exit in H by assumption. discriminate.
Qed.

Lemma sample_lane_inv fuel Successor MaxDist out :
  sample_lane RoadAccuracy fuel Successor MaxDist = Ok out ->
  exists body w rest,
    sample_loop RoadAccuracy fuel Successor MaxDist RoadAccuracy [Successor]
      = Ok body
    /\ GetNext Successor (final_dist MaxDist) = w :: rest
    /\ out = body ++ [w].
Proof.
  intros H. unfold sample_lane in H.
  destruct (sample_loop _ _ _ _ _ _) as [body| | |]; run_outcome H;
    try discriminate.
  destruct (GetNext Successor (final_dist MaxDist)) as [|w rest];
    run_outcome H; [discriminate|].
  destruct (Nat.leb 2 (length (body ++ [w]))); run_outcome H;
    [|discriminate].
  inversion H; subst. exists body, w, rest. auto.
Qed.

Lemma sample_lane_length fuel Successor MaxDist out :
  sample_lane RoadAccuracy fuel Successor MaxDist = Ok out ->
  (2 <= length out)%nat.
Proof.
  intros H. apply sample_lane_inv in H as (body & w & rest & Hl & _ & ->).
  apply sample_loop_grows in Hl. rewrite length_app. simpl in *. lia.
Qed.

Lemma sample_lane_failure fuel Successor MaxDist c :
  sample_lane RoadAccuracy fuel Successor MaxDist = CheckFailed c ->
  c = CheckSingle.
Proof.
  intros H. unfold sample_lane in H.
  destruct (sample_loop _ _ _ _ _ _) as [body| | |] eqn:Hloop;
    run_outcome H; try discriminate.
  - destruct (GetNext Successor (final_dist MaxDist)) as [|w rest];
      run_outcome H; [discriminate|].
    apply sample_loop_grows in Hloop.
    destruct (Nat.leb 2 (length (body ++ [w]))) eqn:Hle; run_outcome H;
      [discriminate|].
    apply Nat.leb_gt in Hle. rewrite length_app in Hle. simpl in *. lia.
  - inversion H; subst. eapply sample_loop_failure; eauto.
Qed.

(** After the loop, element 0 of the answer at the clamped distance is
    appended, whatever else the answer holds. *)
Lemma sample_lane_last fuel Successor MaxDist body w rest :
  sample_loop RoadAccuracy fuel Successor MaxDist RoadAccuracy [Successor]
    = Ok body ->
  GetNext Successor (final_dist MaxDist) = w :: rest ->
  sample_lane RoadAccuracy fuel Successor MaxDist = Ok (body ++ [w]).
Proof.
  intros Hloop Hn. unfold sample_lane. rewrite Hloop. cbn [bind].
  rewrite Hn. cbn [bind front].
  apply sample_loop_grows in Hloop.
  replace (Nat.leb 2 (length (body ++ [w]))) with true; [reflexivity|].
  symmetry. apply Nat.leb_le. rewrite length_app. simpl in *. lia.
Qed.

Lemma sample_lane_no_answer fuel Successor MaxDist body :
  sample_loop RoadAccuracy fuel Successor MaxDist RoadAccuracy [Successor]
    = Ok body ->
  GetNext Successor (final_dist MaxDist) = [] ->
  sample_lane RoadAccuracy fuel Successor MaxDist = OutOfRange.
Proof.
  intros Hloop Hn. unfold sample_lane. rewrite Hloop. cbn [bind].
  now rewrite Hn.
Qed.

End SamplerFacts.

(** The waypoints added by the loop are the answers to its queries, one per
    distance of [loop_dists]. *)
Lemma sample_loop_dists {Waypoint} {M : RoadMap Waypoint}
    (RoadAccuracy : F32.float) fuel (Successor : Waypoint) MaxDist :
  forall Dist Waypoints out,
    sample_loop RoadAccuracy fuel Successor MaxDist Dist Waypoints = Ok out ->
    exists ds,
      loop_dists RoadAccuracy fuel MaxDist Dist = Some ds
      /\ Forall (fun d => F32.ltb d MaxDist = true) ds
      /\ out = Waypoints ++ flat_map (GetNext Successor) ds
      /\ length out = (length Waypoints + length ds)%nat.
Proof.
  induction fuel as [|fuel IH]; intros Dist Waypoints out H.
  - discriminate.
  - cbn [loop_dists]. destruct (F32.ltb Dist MaxDist) eqn:Hlt.
    + rewrite sample_loop_step in H by assumption.
      destruct (GetNext Successor Dist) as [|w [|w' ws]] eqn:Hn;
        try discriminate.
      apply IH in H as (ds & -> & Hall & -> & Hlen).
      exists (Dist :: ds). cbn [option_map flat_map]. rewrite Hn.
      repeat split.
      * constructor; assumption.
      * now rewrite <- app_assoc.
      * rewrite Hlen, length_app. simpl. lia.
    + rewrite sample_loop_exit in H by assumption. inversion H; subst.
      exists []. cbn [flat_map]. rewrite app_nil_r.
      repeat split; auto; simpl; lia.
Qed.

(** ** Claims on the sampler *)

(** C5, as stated, fails: for a lane of length 0.05 the last sample is taken at
    distance 0, while [min(MaxDist - 0.1, MaxDist)] is negative. *)
Lemma final_dist_short_lane_not_min :
  ~ (forall MaxDist : F32.float,
       F32.leb F32.zero MaxDist = true ->
       final_dist MaxDist
       = F32.std_min (F32.sub MaxDist F32.tenth) MaxDist).
Proof.
  intros H. specialize (H twentieth eq_refl). vm_compute in H. discriminate.
Qed.

(** C5, amended: for every lane length [MaxDist >= 0] the last sample of a
    sampled lane is the first answer of [GetNext] at distance
    [clamp(MaxDist - 0.1, 0, MaxDist)]; that distance is
    [min(MaxDist - 0.1, MaxDist)] when [MaxDist - 0.1] is not negative and [0]
    when it is, and it is never negative. *)
Theorem final_dist_clamped (MaxDist : F32.float) :
  F32.leb F32.zero MaxDist = true ->
  final_dist MaxDist
    = (if F32.ltb (F32.sub MaxDist F32.tenth) F32.zero then F32.zero
       else F32.std_min (F32.sub MaxDist F32.tenth) MaxDist)
  /\ F32.ltb (final_dist MaxDist) F32.zero = false
  /\ forall Waypoint (M : RoadMap Waypoint) RoadAccuracy fuel
       (Successor : Waypoint) out,
       sample_lane RoadAccuracy fuel Successor MaxDist = Ok out ->
       exists w rest,
         GetNext Successor (final_dist MaxDist) = w :: rest
         /\ last out = Some w.
Proof.
  intros Hpos. pose proof (leb_ltb_false _ _ Hpos) as Hnneg.
  assert (Heq : final_dist MaxDist
    = (if F32.ltb (F32.sub MaxDist F32.tenth) F32.zero then F32.zero
       else F32.std_min (F32.sub MaxDist F32.tenth) MaxDist)).
  { unfold final_dist, F32.clamp, F32.std_max.
    destruct (F32.ltb (F32.sub MaxDist F32.tenth) F32.zero); [|reflexivity].
    unfold F32.std_min. now rewrite Hnneg. }
  split; [exact Heq|]. split.
  - rewrite Heq.
    destruct (F32.ltb (F32.sub MaxDist F32.tenth) F32.zero) eqn:Hneg.
    + reflexivity.
    + unfold F32.std_min.
      destruct (F32.ltb MaxDist (F32.sub MaxDist F32.tenth)); assumption.
  - intros Waypoint M RoadAccuracy fuel Successor out H.
    apply sample_lane_inv in H as (body & w & rest & _ & Hn & ->).
    exists w, rest. split; [assumption|]. apply last_snoc.
Qed.

(** C6: when [RoadAccuracy >= MaxDist] the stepping loop makes no query and
    returns its input, and the polyline is the start point followed by the
    final boundary sample. *)
Theorem coarse_accuracy_two_points {Waypoint} {M : RoadMap Waypoint}
    (RoadAccuracy MaxDist : F32.float) (fuel : nat) (Successor w : Waypoint)
    (rest : list Waypoint) :
  F32.leb MaxDist RoadAccuracy = true ->
  GetNext Successor (final_dist MaxDist) = w :: rest ->
  loop_dists RoadAccuracy (S fuel) MaxDist RoadAccuracy = Some []
  /\ sample_loop RoadAccuracy (S fuel) Successor MaxDist RoadAccuracy
       [Successor] = Ok [Successor]
  /\ sample_lane RoadAccuracy (S fuel) Successor MaxDist = Ok [Successor; w].
Proof.
  intros Hge Hn. apply leb_ltb_false in Hge.
  assert (Hloop : sample_loop RoadAccuracy (S fuel) Successor MaxDist
                    RoadAccuracy [Successor] = Ok [Successor])
    by now apply sample_loop_exit.
  split; [|split].
  - cbn [loop_dists]. now rewrite Hge.
  - exact Hloop.
  - unfold sample_lane. rewrite Hloop. cbn [bind]. rewrite Hn. reflexivity.
Qed.

(** C10: once the loop has returned, the last sample is element 0 of the
    answer of [GetNext] at the clamped distance, whatever the size of that
    answer: an empty answer is an access out of range, an answer of several
    waypoints is accepted and its first element kept.  In the loop, an answer
    that is not exactly one waypoint is a failed check, so that element 0 is
    never read from an empty answer there. *)
Theorem final_sample_unchecked {Waypoint} {M : RoadMap Waypoint}
    (RoadAccuracy MaxDist : F32.float) (fuel : nat) (Successor : Waypoint)
    (body : list Waypoint) :
  sample_loop RoadAccuracy fuel Successor MaxDist RoadAccuracy [Successor]
    = Ok body ->
  (GetNext Successor (final_dist MaxDist) = [] ->
   sample_lane RoadAccuracy fuel Successor MaxDist = OutOfRange)
  /\ (forall w rest,
        GetNext Successor (final_dist MaxDist) = w :: rest ->
        sample_lane RoadAccuracy fuel Successor MaxDist = Ok (body ++ [w]))
  /\ (forall fuel' Dist Waypoints,
        F32.ltb Dist MaxDist = true ->
        length (GetNext Successor Dist) <> 1%nat ->
        sample_loop RoadAccuracy (S fuel') Successor MaxDist Dist Waypoints
        = CheckFailed CheckSingle)
  /\ (forall fuel' Dist Waypoints,
        sample_loop RoadAccuracy fuel' Successor MaxDist Dist Waypoints
        <> OutOfRange).
Proof.
  intros Hloop. split; [|split; [|split]];
    [| | |intros; apply sample_loop_in_range].
  - intros Hn. now apply sample_lane_no_answer with (body := body).
  - intros w rest Hn. now apply sample_lane_last with (rest := rest).
  - intros fuel' Dist Waypoints Hlt Hlen.
    rewrite sample_loop_step by assumption.
    destruct (GetNext Successor Dist) as [|x [|y ys]]; simpl in Hlen;
      congruence.
Qed.

(** ** Loops *)

Lemma for_each_invariant {A S} (body : S -> A -> outcome S) (I : S -> Prop)
    (l : list A) :
  (forall s a s', In a l -> I s -> body s a = Ok s' -> I s') ->
  forall s s', I s -> for_each body l s = Ok s' -> I s'.
Proof.
  induction l as [|a l IH]; intros Hstep s s' Hs H; cbn [for_each] in H.
  - inversion H; subst. assumption.
  - destruct (body s a) as [s1| | |] eqn:Hb; run_outcome H; try discriminate.
    apply (IH (fun s a s' Hin => Hstep s a s' (or_intror Hin)) s1 s');
      [|assumption].
    apply (Hstep s a s1); [now left|assumption|assumption].
Qed.

(** A failed check of a loop is a failed check of one of its iterations. *)
Lemma for_each_failure {A S} (body : S -> A -> outcome S) (l : list A) c :
  forall s, for_each body l s = CheckFailed c ->
            exists s0 a, In a l /\ body s0 a = CheckFailed c.
Proof.
  induction l as [|a l IH]; intros s H; cbn [for_each] in H.
  - discriminate.
  - destruct (body s a) as [s1| | |] eqn:Hb; run_outcome H; try discriminate.
    + apply IH in H as (s0 & a0 & Hin & H). exists s0, a0. split; [now right|].
      assumption.
    + inversion H; subst. exists s, a. split; [now left|assumption].
Qed.

(** A loop whose iterations all return, returns. *)
Lemma for_each_returns {A S} (body : S -> A -> outcome S) (I : S -> Prop)
    (l : list A) :
  (forall s a, In a l -> I s -> exists s', body s a = Ok s' /\ I s') ->
  forall s, I s -> exists s', for_each body l s = Ok s' /\ I s'.
Proof.
  induction l as [|a l IH]; intros Hstep s Hs; cbn [for_each].
  - exists s. split; [reflexivity|assumption].
  - destruct (Hstep s a (or_introl eq_refl) Hs) as (s1 & -> & Hs1).
    cbn [bind]. apply IH; [|assumption].
    intros s0 a0 Hin. apply Hstep. now right.
Qed.

Lemma Forall2_In_right {A B} (P : A -> B -> Prop) (l : list A) (k : list B)
    (y : B) :
  Forall2 P l k -> In y k -> exists x, In x l /\ P x y.
Proof.
  induction 1 as [|x y' l k Hxy _ IH]; intros Hin.
  - destruct Hin.
  - destruct Hin as [<-|Hin].
    + exists x. split; [now left|assumption].
    + destruct (IH Hin) as (x' & Hx' & HP). exists x'.
      split; [now right|assumption].
Qed.

(** ** The visited list *)

Lemma is_visited_In (visited : list (IdType * Z)) (i : IdType * Z) :
  is_visited visited i = true <-> In i visited.
Proof.
  unfold is_visited. rewrite existsb_exists. split.
  - intros ([r l] & Hin & H). destruct i as [r' l']. simpl in H.
    apply andb_true_iff in H as [H1 H2].
    apply Z.eqb_eq in H1, H2. subst. assumption.
  - intros Hin. exists i. split; [assumption|].
    now rewrite !Z.eqb_refl.
Qed.

Section VisitedFacts.
Context {Waypoint : Type} {M : RoadMap Waypoint}.

Lemma contributing_NoDup (l : list Waypoint) :
  forall visited,
    NoDup visited -> NoDup (visited ++ List.map ident (contributing visited l)).
Proof.
  induction l as [|s l IH]; intros visited Hnd; cbn [contributing].
  - cbn [List.map]. now rewrite app_nil_r.
  - destruct (is_visited visited (GetRoadId s, GetLaneId s)) eqn:Hv.
    + now apply IH.
    + cbn [List.map].
      change (ident s :: List.map ident
                (contributing (visited ++ [(GetRoadId s, GetLaneId s)]) l))
        with ([ident s] ++ List.map ident
                (contributing (visited ++ [ident s]) l)).
      rewrite app_assoc. apply IH.
      apply NoDup_app. split; [assumption|]. split.
      * intros x Hx Hx'. apply list_elem_of_In in Hx.
        apply list_elem_of_In in Hx'. destruct Hx' as [<-|[]].
        apply is_visited_In in Hx. unfold ident in Hx. congruence.
      * apply NoDup_singleton.
Qed.


End VisitedFacts.

(** ** The world *)

Lemma update_planner_last (f : ARoutePlanner -> ARoutePlanner)
    (W0 : list Actor) (k : bool) (r : ARoutePlanner) :
  update_planner f (length W0) (W0 ++ [mkActor k (RoutePlannerActor r)])
  = W0 ++ [mkActor k (RoutePlannerActor (f r))].
Proof.
  unfold update_planner.
  rewrite <- (Nat.add_0_r (length W0)) at 1.
  now rewrite alter_app_r.
Qed.

Lemma planner_at_old (W0 W1 : list Actor) (p : ActorId) :
  (p < length W0)%nat -> planner_at (W0 ++ W1) p = planner_at W0 p.
Proof. intros H. unfold planner_at. now rewrite lookup_app_l. Qed.

Lemma planner_at_new (W0 W1 : list Actor) (p : ActorId) (r : ARoutePlanner) :
  (length W0 <= p)%nat -> planner_at (W0 ++ W1) p = Some r ->
  exists k, In (mkActor k (RoutePlannerActor r)) W1.
Proof.
  intros H. unfold planner_at. rewrite lookup_app_r by assumption.
  destruct (W1 !! (p - length W0)%nat) as [[k [r'|v]]|] eqn:Hl;
    try discriminate.
  intros [= <-]. exists k. apply list_elem_of_In.
  eapply list_elem_of_lookup_2; eauto.
Qed.

Lemma route_count_app (W0 W1 : list Actor) :
  route_count (W0 ++ W1) = (route_count W0 + route_count W1)%nat.
Proof. unfold route_count. now rewrite List.map_app, list_sum_app. Qed.

Section GroupFacts.
Context {Waypoint : Type} {M : RoadMap Waypoint}.

Lemma add_routes_fields polys : forall r,
  bIsIntersection (add_routes polys r) = bIsIntersection r
  /\ BoxExtent (add_routes polys r) = BoxExtent r
  /\ PlannerRotation (add_routes polys r) = PlannerRotation r
  /\ PlannerLocation (add_routes polys r) = PlannerLocation r
  /\ Routes (add_routes polys r)
     = Routes r ++ List.map (pair F32.one) polys.
Proof.
  induction polys as [|poly polys IH]; intros r; cbn [add_routes fold_left].
  - cbn [List.map]. now rewrite app_nil_r.
  - destruct (IH (AddRoute F32.one poly r)) as (H1 & H2 & H3 & H4 & H5).
    unfold add_routes in *. rewrite H1, H2, H3, H4, H5.
    cbn [AddRoute bIsIntersection BoxExtent PlannerRotation PlannerLocation
           Routes List.map].
    now rewrite <- app_assoc.
Qed.

End GroupFacts.

(** ** One anchor *)

Section AnchorFacts.
Context {Waypoint : Type} {M : RoadMap Waypoint}.
Variable fuel : nat.
Variables (E : Waypoint) (Successors : list Waypoint).

(** A visited successor is skipped. *)
Lemma successor_body_skip rp bs (s : Waypoint) :
  is_visited (AlreadyVisited bs) (ident s) = true ->
  successor_body fuel E Successors (rp, bs) s = Ok (rp, bs).
Proof.
  intros Hv. unfold successor_body. unfold ident in Hv. now rewrite Hv.
Qed.

(** A new successor is marked, sampled, and its polyline is added to the
    planner of the anchor, which is appended to the collection. *)
Lemma successor_body_new rp bs (s : Waypoint) st' :
  is_visited (AlreadyVisited bs) (ident s) = false ->
  successor_body fuel E Successors (rp, bs) s = Ok st' ->
  exists Waypoints,
    sample_lane (RoadAccuracy (self bs)) fuel s (GetLength (GetRoadId s))
      = Ok Waypoints
    /\ st' =
       let Positions :=
         WaypointVector2FVectorArray Waypoints (TriggersHeight (self bs)) in
       let pw := ensure_planner E Successors rp (self bs) in
       (Some (fst pw),
        mkBuildState (AlreadyVisited bs ++ [ident s])
          (with_RoutePlanners (RoutePlanners (self bs) ++ [Some (fst pw)])
             (with_World
                (update_planner (AddRoute F32.one Positions) (fst pw)
                   (snd pw))
                (self bs)))).
Proof.
  intros Hv H. unfold successor_body in H. unfold ident in Hv.
  rewrite Hv in H. cbn [negb] in H.
  destruct (sample_lane _ _ _ _) as [Waypoints| | |]; run_outcome H;
    try discriminate.
  exists Waypoints. split; [reflexivity|].
  destruct (ensure_planner E Successors rp (self bs)) as [p w].
  inversion H; subst. reflexivity.
Qed.

Lemma successor_body_failure rp bs (s : Waypoint) c :
  successor_body fuel E Successors (rp, bs) s = CheckFailed c ->
  c = CheckSingle.
Proof.
  intros H. unfold successor_body in H.
  destruct (negb _); [|discriminate].
  destruct (sample_lane _ _ _ _) as [Waypoints| | |] eqn:Hs; run_outcome H;
    try discriminate.
  - destruct (ensure_planner E Successors rp (self bs)). discriminate.
  - inversion H; subst. eapply sample_lane_failure; eauto.
Qed.

(** The rest of the loop once the planner of the anchor exists. *)
Lemma successors_loop_with_planner (l : list Waypoint) :
  forall bs W0 k r st',
    World (self bs) = W0 ++ [mkActor k (RoutePlannerActor r)] ->
    for_each (successor_body fuel E Successors) l (Some (length W0), bs)
      = Ok st' ->
    exists polys,
      Forall2 (sampled fuel (RoadAccuracy (self bs))
                 (TriggersHeight (self bs)))
        (contributing (AlreadyVisited bs) l) polys
      /\ fst st' = Some (length W0)
      /\ AlreadyVisited (snd st')
         = AlreadyVisited bs
             ++ List.map ident (contributing (AlreadyVisited bs) l)
      /\ self (snd st')
         = with_RoutePlanners
             (RoutePlanners (self bs)
                ++ repeat (Some (length W0)) (length polys))
             (with_World
                (W0 ++ [mkActor k (RoutePlannerActor (add_routes polys r))])
                (self bs)).
Proof.
  induction l as [|s l IH]; intros bs W0 k r st' HW H;
    cbn [for_each contributing] in *.
  - inversion H; subst. exists [].
    cbn [fst snd List.map length repeat add_routes fold_left].
    rewrite !app_nil_r, <- HW. repeat split; [constructor|].
    destruct bs as [v a], a; reflexivity.
  - destruct (successor_body fuel E Successors (Some (length W0), bs) s)
      as [st1| | |] eqn:Hb; run_outcome H; try discriminate.
    destruct (is_visited (AlreadyVisited bs) (GetRoadId s, GetLaneId s))
      eqn:Hv.
    + rewrite successor_body_skip in Hb by exact Hv.
      inversion Hb; subst. apply (IH bs W0 k r st' HW H).
    + apply successor_body_new in Hb as (wps & Hs & ->); [|exact Hv].
      cbn [ensure_planner fst snd] in H. rewrite HW in H.
      rewrite update_planner_last in H.
      apply (IH _ W0 k
               (AddRoute F32.one
                  (WaypointVector2FVectorArray wps
                     (TriggersHeight (self bs))) r))
        in H as (polys & HF & Hp & HAV & Hself); [|reflexivity].
      cbn [AlreadyVisited self with_RoutePlanners with_World RoadAccuracy
             TriggersHeight RoutePlanners] in *.
      exists (WaypointVector2FVectorArray wps (TriggersHeight (self bs))
                :: polys).
      split; [|split; [|split]].
      * constructor; [|exact HF]. exists wps. split; [exact Hs|reflexivity].
      * exact Hp.
      * rewrite HAV. cbn [List.map]. now rewrite <- app_assoc.
      * rewrite Hself. cbn [length repeat add_routes fold_left].
        rewrite <- app_assoc. reflexivity.
Qed.

(** The loop from its start, where the anchor has no planner yet. *)
Lemma successors_loop_spec (l : list Waypoint) :
  forall bs st',
    for_each (successor_body fuel E Successors) l (None, bs) = Ok st' ->
    exists polys,
      Forall2 (sampled fuel (RoadAccuracy (self bs))
                 (TriggersHeight (self bs)))
        (contributing (AlreadyVisited bs) l) polys
      /\ AlreadyVisited (snd st')
         = AlreadyVisited bs
             ++ List.map ident (contributing (AlreadyVisited bs) l)
      /\ self (snd st')
         = match polys with
           | [] => self bs
           | _ :: _ =>
               with_RoutePlanners
                 (RoutePlanners (self bs)
                    ++ repeat (Some (length (World (self bs))))
                         (length polys))
                 (with_World
                    (World (self bs)
                       ++ [mkActor false
                             (RoutePlannerActor
                                (add_routes polys
                                   (mkRoutePlanner
                                      (existsb IsIntersection Successors)
                                      (mkFVector (F32.of_Z 70) (F32.of_Z 70)
                                         (F32.of_Z 50))
                                      (rotation (ComputeTransform E))
                                      (FVector_add
                                         (location (ComputeTransform E))
                                         (mkFVector F32.zero F32.zero
                                            (TriggersHeight (self bs))))
                                      [])))])
                    (self bs))
           end.
Proof.
  induction l as [|s l IH]; intros bs st' H; cbn [for_each contributing] in *.
  - inversion H; subst. exists []. cbn [snd List.map].
    rewrite app_nil_r. repeat split. constructor.
  - destruct (successor_body fuel E Successors (None, bs) s)
      as [st1| | |] eqn:Hb; run_outcome H; try discriminate.
    destruct (is_visited (AlreadyVisited bs) (GetRoadId s, GetLaneId s))
      eqn:Hv.
    + rewrite successor_body_skip in Hb by exact Hv.
      inversion Hb; subst. eapply IH; eauto.
    + apply successor_body_new in Hb as (wps & Hs & ->); [|exact Hv].
      cbn [ensure_planner SpawnActor fst snd] in H.
      rewrite !update_planner_last in H.
      eapply successors_loop_with_planner
        in H as (polys & HF & _ & HAV & Hself); [|reflexivity].
      cbn [AlreadyVisited self with_RoutePlanners with_World RoadAccuracy
             TriggersHeight RoutePlanners] in *.
      exists (WaypointVector2FVectorArray wps (TriggersHeight (self bs))
                :: polys).
      split; [|split].
      * constructor; [|exact HF]. exists wps. split; [exact Hs|reflexivity].
      * rewrite HAV. cbn [List.map]. now rewrite <- app_assoc.
      * rewrite Hself. cbn [length repeat add_routes fold_left].
        rewrite <- app_assoc. reflexivity.
Qed.

End AnchorFacts.


(** ** One pass *)

Section PassFacts.
Context {Waypoint : Type} {M : RoadMap Waypoint}.
Variable fuel : nat.
Variable a0 : AOpenDriveActor.

Lemma pass_inv_start : pass_inv fuel a0 (mkBuildState [] a0).
Proof.
  unfold pass_inv. cbn [AlreadyVisited self length].
  split; [constructor|]. split; [reflexivity|]. split; [reflexivity|]. split.
  - exists []. rewrite app_nil_r. repeat split. constructor.
  - exists []. rewrite app_nil_r. repeat split. constructor.
Qed.

Lemma anchor_body_inv (bs : BuildState) (E : Waypoint) bs' :
  In E GenerateLaneEnd -> pass_inv fuel a0 bs ->
  anchor_body fuel bs E = Ok bs' -> pass_inv fuel a0 bs'.
Proof.
  intros HE (Hnd & Hacc & Hh & (groups & HW & Hcount & Hgroups)
              & (added & HR & Hlen & Hadded)) H.
  unfold anchor_body in H.
  destruct (for_each _ _ _) as [st| | |] eqn:Hloop; run_outcome H;
    try discriminate.
  inversion H; subst bs'; clear H.
  apply successors_loop_spec in Hloop as (polys & HF & HAV & Hself).
  pose proof (Forall2_length _ _ _ HF) as HFlen.
  assert (Hvl : length (AlreadyVisited (snd st))
                = (length (AlreadyVisited bs) + length polys)%nat).
  { rewrite HAV, length_app, length_map. lia. }
  unfold pass_inv. split; [|split; [|split; [|split]]].
  - rewrite HAV. now apply contributing_NoDup.
  - rewrite Hself. destruct polys; [exact Hacc|exact Hacc].
  - rewrite Hself. destruct polys; [exact Hh|exact Hh].
  - destruct polys as [|poly polys].
    + exists groups. rewrite Hself, Hvl. cbn [length].
      rewrite Nat.add_0_r. auto.
    + eexists (groups ++ [_]). rewrite Hself.
      cbn [World with_World with_RoutePlanners].
      split; [rewrite HW, <- app_assoc; reflexivity|]. split.
      * rewrite route_count_app, Hcount, Hvl. f_equal.
        unfold route_count. cbn [List.map data list_sum].
        match goal with
        | |- context [Routes (add_routes ?ps ?r)] =>
            destruct (add_routes_fields ps r) as (_ & _ & _ & _ & ->)
        end.
        cbn [Routes app]. rewrite length_map.
        unfold list_sum. cbn [fold_right]. lia.
      * apply Forall_app. split; [exact Hgroups|].
        constructor; [|constructor].
        exists E, (AlreadyVisited bs), (poly :: polys).
        split; [exact HE|]. unfold group_of.
        rewrite <- Hacc, <- Hh. split; [exact HF|]. split; [discriminate|].
        reflexivity.
  - destruct polys as [|poly polys].
    + exists added. rewrite Hself, Hvl. cbn [length].
      rewrite Nat.add_0_r. auto.
    + exists (added ++ repeat (Some (length (World (self bs))))
                        (length (poly :: polys))).
      rewrite Hself. cbn [World RoutePlanners with_World with_RoutePlanners].
      split; [rewrite HR, <- app_assoc; reflexivity|]. split.
      * rewrite length_app, repeat_length, Hlen, Hvl. reflexivity.
      * apply Forall_app. split.
        -- apply List.Forall_forall. intros q Hq.
           rewrite List.Forall_forall in Hadded.
           destruct (Hadded q Hq) as (p & -> & Hp). exists p.
           split; [reflexivity|]. rewrite length_app. simpl. lia.
        -- apply List.Forall_forall. intros q Hq. apply repeat_spec in Hq.
           subst q. exists (length (World (self bs))). split; [reflexivity|].
           rewrite length_app, HW, length_app. simpl. lia.
Qed.

Lemma build_pass_inv bs :
  build_pass fuel a0 = Ok bs -> pass_inv fuel a0 bs.
Proof.
  unfold build_pass. intros H.
  eapply (for_each_invariant (anchor_body fuel) (pass_inv fuel a0));
    [|apply pass_inv_start|exact H].
  intros s E s' HE Hs Hb. eapply anchor_body_inv; eauto.
Qed.

End PassFacts.

(** ** Claims on the builder *)

Section BuilderClaims.
Context {Waypoint : Type} {M : RoadMap Waypoint}.

Lemma BuildRoutes_inv fuel ParseError (a a' : AOpenDriveActor) :
  BuildRoutes fuel ParseError a = Ok a' ->
  a' = a \/ exists bs, build_pass fuel a = Ok bs /\ a' = self bs.
Proof.
  unfold BuildRoutes. destruct (Nat.ltb 0 (String.length ParseError)).
  - intros [= <-]. now left.
  - destruct (build_pass fuel a) as [bs| | |]; cbn [bind]; try discriminate.
    intros [= <-]. right. eauto.
Qed.

(** The only check of a build that can fire is the one on the size of the
    answer of [GetNext] inside the stepping loop. *)
Lemma BuildRoutes_failure fuel ParseError (a : AOpenDriveActor) c :
  BuildRoutes fuel ParseError a = CheckFailed c -> c = CheckSingle.
Proof.
  unfold BuildRoutes. destruct (Nat.ltb 0 (String.length ParseError));
    [discriminate|].
  destruct (build_pass fuel a) as [bs| | |] eqn:Hp; cbn [bind];
    try discriminate.
  intros [= <-]. unfold build_pass in Hp.
  apply for_each_failure in Hp as (s0 & E & _ & Hb).
  unfold anchor_body in Hb.
  destruct (for_each _ _ _) as [st| | |] eqn:Hl; run_outcome Hb;
    try discriminate.
  inversion Hb; subst. apply for_each_failure in Hl as ([rp bs] & s & _ & Hs).
  eapply successor_body_failure; eauto.
Qed.

(** The planners a build adds to the world are route groups of its anchors. *)
Lemma BuildRoutes_groups fuel ParseError (a a' : AOpenDriveActor) p r :
  BuildRoutes fuel ParseError a = Ok a' ->
  (length (World a) <= p)%nat -> planner_at (World a') p = Some r ->
  exists E visited polys,
    In E GenerateLaneEnd
    /\ group_of fuel a E visited polys (mkActor false (RoutePlannerActor r)).
Proof.
  intros H Hp Hr. apply BuildRoutes_inv in H as [->|(bs & Hb & ->)].
  - unfold planner_at in Hr. rewrite (lookup_ge_None_2 _ _ Hp) in Hr.
    discriminate.
  - apply build_pass_inv in Hb as (_ & _ & _ & (groups & HW & _ & Hg) & _).
    rewrite HW in Hr. apply planner_at_new in Hr as (k & Hin); [|exact Hp].
    rewrite List.Forall_forall in Hg.
    destruct (Hg _ Hin) as (E & visited & polys & HE & Hgroup).
    exists E, visited, polys. split; [exact HE|].
    destruct Hgroup as (HF & Hne & Heq). inversion Heq; subst.
    repeat split; assumption.
Qed.

End BuilderClaims.

(** ** The test networks *)

Lemma scenario_B_build n :
  BuildRoutes (M := scenario_B) (S (S n)) EmptyString (fresh_actor ten)
  = Ok scenario_B_built.
Proof. vm_compute. reflexivity. Qed.

Lemma fork_build n :
  BuildRoutes (M := fork) (S (S n)) EmptyString (fresh_actor ten)
  = Ok fork_built.
Proof. vm_compute. reflexivity. Qed.

Lemma merge_build n :
  BuildRoutes (M := merge) (S (S n)) EmptyString (fresh_actor ten)
  = Ok merge_built.
Proof. vm_compute. reflexivity. Qed.

(** ** C1: the collection lists a route group once per polyline *)

(** While an anchor is processed, the collection grows by one copy of the
    pointer to the anchor's planner for every lane that is sampled. *)
Lemma anchor_body_collection {Waypoint} {M : RoadMap Waypoint} fuel
    (bs bs' : BuildState) (E : Waypoint) :
  anchor_body fuel bs E = Ok bs' ->
  RoutePlanners (self bs')
  = RoutePlanners (self bs)
      ++ repeat (Some (length (World (self bs))))
           (length (contributing (AlreadyVisited bs) (GetSuccessors E))).
Proof.
  intros H. unfold anchor_body in H.
  destruct (for_each _ _ _) as [st| | |] eqn:Hloop; run_outcome H;
    try discriminate.
  inversion H; subst bs'; clear H.
  apply successors_loop_spec in Hloop as (polys & HF & _ & Hself).
  rewrite (Forall2_length _ _ _ HF), Hself.
  destruct polys; [|reflexivity].
  cbn [length repeat]. now rewrite app_nil_r.
Qed.

(** C1 fails on the code: on the fork, where the one anchor has two unvisited
    successors, the build spawns one route planner (one actor in the world) and
    lists it twice in [RoutePlanners], once per polyline; [AddSpawners] then
    puts two identical spawn points on it. *)
Theorem fork_planner_listed_twice :
  forall n,
    BuildRoutes (M := fork) (S (S n)) EmptyString (fresh_actor ten)
    = Ok fork_built
    /\ length (World fork_built) = 1%nat
    /\ (exists r, planner_at (World fork_built) 0 = Some r
                  /\ length (Routes r) = 2%nat)
    /\ RoutePlanners fork_built = [Some O; Some O]
    /\ ~ NoDup (RoutePlanners fork_built)
    /\ (exists v,
          VehicleSpawners (AddSpawners fork_built) = [Some 1%nat; Some 2%nat]
          /\ World (AddSpawners fork_built) !! 1%nat = Some v
          /\ World (AddSpawners fork_built) !! 2%nat = Some v).
Proof.
  intros n. split; [apply fork_build|]. split; [reflexivity|].
  split; [eexists; split; reflexivity|]. split; [reflexivity|]. split.
  - cbn. intros H. apply NoDup_cons in H as [H _]. apply H. now left.
  - eexists. split; [reflexivity|]. split; reflexivity.
Qed.

(** ** C2: the intersection flag *)

(** C2, as stated, fails: on the merge the group of the second anchor holds
    only the polyline of road 3, which is no junction road, and its flag is
    set, because road 2, claimed by the first anchor, is one. *)
Lemma merge_flag_set_by_claimed_successor :
  ~ (forall (a' : AOpenDriveActor) p r E visited polys,
       BuildRoutes (M := merge) 2 EmptyString (fresh_actor ten) = Ok a' ->
       planner_at (World a') p = Some r ->
       group_of (M := merge) 2 (fresh_actor ten) E visited polys
         (mkActor false (RoutePlannerActor r)) ->
       (bIsIntersection r = true <->
        exists s, In s (contributing (M := merge) visited
                          (GetSuccessors (RoadMap := merge) E))
                  /\ IsIntersection (RoadMap := merge) s = true)).
Proof.
  intros H.
  destruct (H merge_built 1%nat
              (add_routes [polyline_20]
                 (anchor_planner (M := merge) F32.zero (lane_end 4)))
              (lane_end 4) [(2, -1)] [polyline_20]) as [Hflag _].
  - apply merge_build.
  - reflexivity.
  - split; [|split; [discriminate|reflexivity]].
    constructor; [|constructor].
    exists [at_s 3 F32.zero; at_s 3 ten; at_s 3 nineteen_nine].
    split; reflexivity.
  - destruct (Hflag eq_refl) as (s & [<-|[]] & Hs). discriminate.
Qed.

(** C2, amended: every route planner that a build adds is the group of one of
    the anchors, and its flag is true iff some successor of that anchor,
    sampled for this group or not, reports an intersection. *)
Theorem intersection_flag_any_successor {Waypoint} {M : RoadMap Waypoint}
    fuel ParseError (a a' : AOpenDriveActor) p r :
  BuildRoutes fuel ParseError a = Ok a' ->
  (length (World a) <= p)%nat -> planner_at (World a') p = Some r ->
  exists E visited polys,
    In E GenerateLaneEnd
    /\ group_of fuel a E visited polys (mkActor false (RoutePlannerActor r))
    /\ (bIsIntersection r = true <->
        exists s, In s (GetSuccessors E) /\ IsIntersection s = true).
Proof.
  intros H Hp Hr.
  destruct (BuildRoutes_groups _ _ _ _ _ _ H Hp Hr)
    as (E & visited & polys & HE & Hg).
  exists E, visited, polys. split; [exact HE|]. split; [exact Hg|].
  destruct Hg as (_ & _ & Heq). inversion Heq; subst r.
  destruct (add_routes_fields polys (anchor_planner (TriggersHeight a) E))
    as (-> & _).
  cbn [anchor_planner bIsIntersection]. apply existsb_exists.
Qed.

Lemma intersection_flag_any_successor_witness :
  exists r,
    planner_at (World merge_built) 1 = Some r
    /\ exists E visited polys,
         In E (GenerateLaneEnd (RoadMap := merge))
         /\ group_of (M := merge) 2 (fresh_actor ten) E visited polys
              (mkActor false (RoutePlannerActor r))
         /\ (bIsIntersection r = true <->
             exists s, In s (GetSuccessors (RoadMap := merge) E)
                       /\ IsIntersection (RoadMap := merge) s = true).
Proof.
  eexists. split; [reflexivity|].
  apply (intersection_flag_any_successor (M := merge) 2 EmptyString
           (fresh_actor ten) merge_built 1%nat).
  - apply merge_build.
  - cbn. lia.
  - reflexivity.
Defined.

(** ** C3: no lane is sampled twice *)

(** C3: a successor whose identifier is in the visited list is skipped, the
    state being left as it is; any other successor is appended to the list and
    its lane sampled; at the end of a pass the list has no repetition and the
    world holds one new polyline per entry; each pass starts from the empty
    list, which is no part of the actor a build returns. *)
Theorem lanes_sampled_once {Waypoint} {M : RoadMap Waypoint} (fuel : nat) :
  (forall E Successors rp bs (s : Waypoint),
      is_visited (AlreadyVisited bs) (ident s) = true ->
      successor_body fuel E Successors (rp, bs) s = Ok (rp, bs))
  /\ (forall E Successors rp bs (s : Waypoint) st',
        is_visited (AlreadyVisited bs) (ident s) = false ->
        successor_body fuel E Successors (rp, bs) s = Ok st' ->
        AlreadyVisited (snd st') = AlreadyVisited bs ++ [ident s]
        /\ is_visited (AlreadyVisited (snd st')) (ident s) = true
        /\ exists Waypoints,
             sample_lane (RoadAccuracy (self bs)) fuel s
               (GetLength (GetRoadId s)) = Ok Waypoints)
  /\ (forall a bs,
        build_pass fuel a = Ok bs ->
        NoDup (AlreadyVisited bs)
        /\ route_count (World (self bs))
           = (route_count (World a) + length (AlreadyVisited bs))%nat)
  /\ (forall a,
        build_pass fuel a
        = for_each (anchor_body fuel) GenerateLaneEnd (mkBuildState [] a)
        /\ BuildRoutes fuel EmptyString a
           = (bs <- build_pass fuel a ;; Ok (self bs))).
Proof.
  split; [|split; [|split]].
  - intros E Successors rp bs s Hv. now apply successor_body_skip.
  - intros E Successors rp bs s st' Hv H.
    apply successor_body_new in H as (wps & Hs & ->); [|exact Hv].
    cbn [snd AlreadyVisited]. split; [reflexivity|]. split.
    + apply is_visited_In, in_or_app. right. now left.
    + exists wps. exact Hs.
  - intros a bs H.
    apply build_pass_inv in H as (Hnd & _ & _ & (groups & HW & Hc & _) & _).
    split; [exact Hnd|]. rewrite HW, route_count_app, Hc. reflexivity.
  - intros a. split; reflexivity.
Qed.

Lemma lanes_sampled_once_witness :
  NoDup [(2, -1); (3, -1)]
  /\ route_count (World merge_built) = 2%nat.
Proof.
  destruct (lanes_sampled_once (M := merge) 2) as (_ & _ & H & _).
  destruct (H (fresh_actor ten)
              (mkBuildState [(2, -1); (3, -1)] merge_built) eq_refl)
    as [Hnd Hc].
  split; [exact Hnd|exact Hc].
Defined.

(** ** C4: every polyline has two points *)

(** C4: for every accuracy and every lane length a sampled lane has at least
    two points; the check on the size (and the one on the distance) never
    fires in a build; and every polyline of every planner that a build adds
    has at least two points. *)
Theorem polylines_have_two_points {Waypoint} {M : RoadMap Waypoint}
    (fuel : nat) :
  (forall RoadAccuracy (Successor : Waypoint) MaxDist,
      sample_lane RoadAccuracy fuel Successor MaxDist <> CheckFailed CheckSize
      /\ forall out,
           sample_lane RoadAccuracy fuel Successor MaxDist = Ok out ->
           (2 <= length out)%nat)
  /\ (forall ParseError a,
        BuildRoutes fuel ParseError a <> CheckFailed CheckSize
        /\ BuildRoutes fuel ParseError a <> CheckFailed CheckDist
        /\ forall a' p r,
             BuildRoutes fuel ParseError a = Ok a' ->
             (length (World a) <= p)%nat ->
             planner_at (World a') p = Some r ->
             Forall (fun route => (2 <= length (snd route))%nat) (Routes r)).
Proof.
  split.
  - intros RoadAccuracy Successor MaxDist. split.
    + intros H. apply sample_lane_failure in H. discriminate.
    + intros out. apply sample_lane_length.
  - intros ParseError a. split; [|split].
    + intros H. apply BuildRoutes_failure in H. discriminate.
    + intros H. apply BuildRoutes_failure in H. discriminate.
    + intros a' p r H Hp Hr.
      destruct (BuildRoutes_groups _ _ _ _ _ _ H Hp Hr)
        as (E & visited & polys & _ & HF & _ & Heq).
      inversion Heq; subst r.
      destruct (add_routes_fields polys (anchor_planner (TriggersHeight a) E))
        as (_ & _ & _ & _ & ->).
      cbn [anchor_planner Routes app]. apply List.Forall_forall.
      intros [w poly] Hin. apply in_map_iff in Hin as (poly' & [= <- <-] & Hin).
      cbn [snd].
      destruct (Forall2_In_right _ _ _ poly' HF Hin)
        as (s & _ & wps & Hs & ->).
      apply sample_lane_length in Hs.
      unfold WaypointVector2FVectorArray. now rewrite length_map.
Qed.

Lemma polylines_have_two_points_witness :
  Forall (fun route => (2 <= length (snd route))%nat)
    [(F32.one, polyline_20)].
Proof.
  destruct (polylines_have_two_points (M := scenario_B) 2) as (_ & H).
  destruct (H EmptyString (fresh_actor ten)) as (_ & _ & H').
  apply (H' scenario_B_built O
           (add_routes [polyline_20]
              (anchor_planner (M := scenario_B) F32.zero (lane_end 1)))).
  - apply scenario_B_build.
  - cbn. constructor.
  - reflexivity.
Defined.

(** ** Witnesses of the claims on the sampler *)

Lemma final_dist_clamped_witness :
  F32.leb F32.zero twentieth = true
  /\ final_dist twentieth = F32.zero
  /\ final_dist twenty = nineteen_nine.
Proof.
  split; [reflexivity|].
  destruct (final_dist_clamped twentieth eq_refl) as (H1 & _).
  destruct (final_dist_clamped twenty eq_refl) as (H2 & _).
  split; [exact H1|exact H2].
Defined.

Lemma coarse_accuracy_two_points_witness :
  F32.leb twenty twenty = true
  /\ sample_lane (M := scenario_B) twenty 1 (lane_start 2) twenty
     = Ok [at_s 2 F32.zero; at_s 2 nineteen_nine].
Proof.
  split; [reflexivity|].
  apply (coarse_accuracy_two_points (M := scenario_B) twenty twenty O
           (lane_start 2) (at_s 2 nineteen_nine) []); reflexivity.
Defined.

Lemma final_sample_unchecked_witness :
  sample_loop (M := two_valued) twenty 1 (lane_start 2) twenty twenty
    [lane_start 2] = Ok [lane_start 2]
  /\ sample_lane (M := two_valued) twenty 1 (lane_start 2) twenty
     = Ok [at_s 2 F32.zero; at_s 2 nineteen_nine]
  /\ sample_loop (M := two_valued) twenty 1 (lane_start 2) twenty ten
       [lane_start 2] = CheckFailed CheckSingle.
Proof.
  split; [reflexivity|].
  destruct (final_sample_unchecked (M := two_valued) twenty twenty 1
              (lane_start 2) [lane_start 2] eq_refl) as (_ & Hlast & Hloop).
  split.
  - apply (Hlast (at_s 2 nineteen_nine)
             [mkLanePoint 2 (-2) nineteen_nine]). reflexivity.
  - apply Hloop; [reflexivity|]. cbn. discriminate.
Defined.

(** ** C7: scenario B *)

(** C7: on scenario B, with [RoadAccuracy = 10], a build leaves one route
    planner, listed once, holding one polyline of three points; lane B is
    queried at distance 10 in the loop and at [20 - 0.1], the [float] nearest
    to 19.9, after it; the points are those at arc lengths 0, 10 and 19.9. *)
Theorem scenario_B_one_group_three_points :
  forall n,
    BuildRoutes (M := scenario_B) (S (S n)) EmptyString (fresh_actor ten)
    = Ok scenario_B_built
    /\ RoutePlanners scenario_B_built = [Some O]
    /\ (exists r,
          World scenario_B_built = [mkActor false (RoutePlannerActor r)]
          /\ Routes r
             = [(F32.one, [on_x F32.zero; on_x ten; on_x nineteen_nine])])
    /\ sample_lane (M := scenario_B) ten (S (S n)) (lane_start 2) twenty
       = Ok [at_s 2 F32.zero; at_s 2 ten; at_s 2 nineteen_nine]
    /\ loop_dists ten (S (S n)) twenty ten = Some [ten]
    /\ final_dist twenty = nineteen_nine
    /\ (exists q, F32.to_Q ten = Some q /\ (q == 10 # 1)%Q)
    /\ (exists q, F32.to_Q nineteen_nine = Some q
                  /\ ((199 # 10) - (1 # 1000000) < q)%Q
                  /\ (q < 199 # 10)%Q).
Proof.
  intros n. split; [apply scenario_B_build|]. split; [reflexivity|].
  split; [eexists; split; reflexivity|]. split; [reflexivity|].
  split; [reflexivity|]. split; [reflexivity|].
  split; [eexists; split; reflexivity|].
  eexists. split; [reflexivity|]. split; reflexivity.
Qed.

(** ** C8: a parse error *)

(** C8, as stated, fails on the rebuild command: an actor that holds a route
    planner and is asked to regenerate its routes has none left when the map
    cannot be parsed. *)
Lemma failed_rebuild_drops_routes :
  ~ (forall (a a' : AOpenDriveActor) ParseError,
       (0 < String.length ParseError)%nat ->
       PostEditChangeProperty (M := scenario_B) 2 ParseError
         NAME_bGenerateRoutes a = Ok a' ->
       RoutePlanners a' = RoutePlanners a /\ World a' = World a).
Proof.
  intros H.
  destruct (H built_actor
              (RemoveSpawners (RemoveRoutes
                 (with_bGenerateRoutes false built_actor)))
              "no root element"%string) as [HR _].
  - cbn. lia.
  - reflexivity.
  - discriminate.
Qed.

(** C8, amended: when the map cannot be parsed, [BuildRoutes] returns the
    actor as it received it.  On the rebuild command [RemoveRoutes] and
    [RemoveSpawners] have run before: the planners and spawners of the last
    build are destroyed and both collections are empty afterwards.  With the
    flag unset the command does nothing. *)
Theorem parse_error_leaves_BuildRoutes_input {Waypoint}
    {M : RoadMap Waypoint} (fuel : nat) (ParseError : string)
    (a : AOpenDriveActor) :
  (0 < String.length ParseError)%nat ->
  BuildRoutes fuel ParseError a = Ok a
  /\ (bGenerateRoutes a = true ->
      exists a',
        PostEditChangeProperty fuel ParseError NAME_bGenerateRoutes a = Ok a'
        /\ RoutePlanners a' = []
        /\ VehicleSpawners a' = []
        /\ World a'
           = destroy_all (VehicleSpawners a)
               (destroy_all (RoutePlanners a) (World a))
        /\ bGenerateRoutes a' = false)
  /\ (bGenerateRoutes a = false ->
      PostEditChangeProperty fuel ParseError NAME_bGenerateRoutes a = Ok a).
Proof.
  intros Hpe. apply Nat.ltb_lt in Hpe.
  assert (HB : forall b, BuildRoutes fuel ParseError b = Ok b).
  { intros b. unfold BuildRoutes. now rewrite Hpe. }
  split; [apply HB|]. split.
  - intros Hg. unfold PostEditChangeProperty, on_generate_routes.
    cbn [FName_eqb]. rewrite Hg, HB. cbn [bind].
    eexists. split; [reflexivity|].
    destruct a as [W D R V ra th sh g rr sd rc ad oi]. cbn in *.
    destruct ad, sd; cbn; repeat split.
  - intros Hg. unfold PostEditChangeProperty, on_generate_routes.
    cbn [FName_eqb]. rewrite Hg. reflexivity.
Qed.

Lemma parse_error_leaves_BuildRoutes_input_witness :
  (0 < String.length "no root element")%nat
  /\ BuildRoutes (M := scenario_B) 2 "no root element" built_actor
     = Ok built_actor
  /\ exists a',
       PostEditChangeProperty (M := scenario_B) 2 "no root element"
         NAME_bGenerateRoutes built_actor = Ok a'
       /\ RoutePlanners built_actor = [Some O]
       /\ RoutePlanners a' = [].
Proof.
  assert (Hpe : (0 < String.length "no root element")%nat) by (cbn; lia).
  split; [exact Hpe|].
  destruct (parse_error_leaves_BuildRoutes_input (M := scenario_B) 2
              "no root element" built_actor Hpe) as (HB & HG & _).
  split; [exact HB|].
  destruct (HG eq_refl) as (a' & Ha' & HR & _).
  exists a'. split; [exact Ha'|]. split; [reflexivity|exact HR].
Defined.

(** ** C9: clearing *)

(** C9: after [RemoveRoutes] the collection is empty; a second call changes
    nothing; on an actor whose collection is empty already the call changes
    nothing either. *)
Theorem RemoveRoutes_idempotent (a : AOpenDriveActor) :
  RoutePlanners (RemoveRoutes a) = []
  /\ RemoveRoutes (RemoveRoutes a) = RemoveRoutes a
  /\ (RoutePlanners a = [] -> RemoveRoutes a = a).
Proof.
  split; [reflexivity|]. split; [reflexivity|].
  intros H. destruct a as [W D R V ra th sh g rr sd rc ad oi].
  cbn in H. subst R. reflexivity.
Qed.

Lemma RemoveRoutes_idempotent_witness :
  RemoveRoutes (RemoveRoutes fork_built) = RemoveRoutes fork_built
  /\ RemoveRoutes (fresh_actor ten) = fresh_actor ten.
Proof.
  destruct (RemoveRoutes_idempotent fork_built) as (_ & H & _).
  destruct (RemoveRoutes_idempotent (fresh_actor ten)) as (_ & _ & H').
  split; [exact H|apply H'; reflexivity].
Defined.

(** ** Builds that return *)

Section Returns.
Context {Waypoint : Type} {M : RoadMap Waypoint}.

(** With fuel for its loop, a lane whose queries are answered by one waypoint
    each is sampled into the start point, one point per step and the final
    sample. *)
Lemma sample_loop_returns RoadAccuracy (Successor : Waypoint) MaxDist fuel :
  forall Dist Waypoints ds,
    loop_dists RoadAccuracy fuel MaxDist Dist = Some ds ->
    (forall d, In d ds -> exists w, GetNext Successor d = [w]) ->
    sample_loop RoadAccuracy fuel Successor MaxDist Dist Waypoints
    = Ok (Waypoints ++ flat_map (GetNext Successor) ds).
Proof.
  induction fuel as [|fuel IH]; intros Dist Waypoints ds Hd Hone.
  - discriminate.
  - cbn [loop_dists] in Hd. destruct (F32.ltb Dist MaxDist) eqn:Hlt.
    + rewrite sample_loop_step by assumption.
      destruct (loop_dists RoadAccuracy fuel MaxDist
                  (F32.add Dist RoadAccuracy)) as [ds'|] eqn:Hd';
        [|discriminate].
      cbn [option_map] in Hd. inversion Hd; subst ds; clear Hd.
      destruct (Hone Dist (or_introl eq_refl)) as (w & Hw). rewrite Hw.
      rewrite (IH _ _ ds' Hd') by (intros d Hin; apply Hone; now right).
      cbn [flat_map]. rewrite Hw. now rewrite <- app_assoc.
    + inversion Hd; subst ds. rewrite sample_loop_exit by assumption.
      cbn [flat_map]. now rewrite app_nil_r.
Qed.

Lemma sample_lane_returns RoadAccuracy (Successor : Waypoint) MaxDist fuel
    ds w rest :
  loop_dists RoadAccuracy fuel MaxDist RoadAccuracy = Some ds ->
  (forall d, In d ds -> exists w, GetNext Successor d = [w]) ->
  GetNext Successor (final_dist MaxDist) = w :: rest ->
  sample_lane RoadAccuracy fuel Successor MaxDist
  = Ok (Successor :: flat_map (GetNext Successor) ds ++ [w]).
Proof.
  intros Hd Hone Hlast.
  pose proof (sample_loop_returns RoadAccuracy Successor MaxDist fuel
                RoadAccuracy [Successor] ds Hd Hone) as Hloop.
  rewrite (sample_lane_last _ _ _ _ _ _ _ Hloop Hlast). reflexivity.
Qed.

(** A build returns when every lane it has to sample can be sampled. *)
Lemma BuildRoutes_returns fuel ParseError (a : AOpenDriveActor) :
  (forall E s, In E GenerateLaneEnd -> In s (GetSuccessors E) ->
     exists out,
       sample_lane (RoadAccuracy a) fuel s (GetLength (GetRoadId s))
       = Ok out) ->
  exists a', BuildRoutes fuel ParseError a = Ok a'.
Proof.
  intros Hs. unfold BuildRoutes.
  destruct (Nat.ltb 0 (String.length ParseError)); [eauto|].
  destruct (for_each_returns (anchor_body fuel)
              (fun bs => RoadAccuracy (self bs) = RoadAccuracy a)
              GenerateLaneEnd) with (s := mkBuildState [] a)
    as (bs & Hb & _); [|reflexivity|].
  - intros bs E HE Hacc. unfold anchor_body.
    destruct (for_each_returns (successor_body fuel E (GetSuccessors E))
                (fun st => RoadAccuracy (self (snd st)) = RoadAccuracy a)
                (GetSuccessors E)) with (s := (@None nat, bs))
      as (st & -> & Hst); [|exact Hacc|].
    + intros [rp bs1] s Hin Hacc1. cbn [snd] in Hacc1.
      unfold successor_body.
      destruct (negb _); [|exists (rp, bs1); split; [reflexivity|exact Hacc1]].
      rewrite Hacc1. destruct (Hs E s HE Hin) as (out & ->). cbn [bind].
      destruct (ensure_planner E (GetSuccessors E) rp (self bs1)) as [p w].
      eexists. split; [reflexivity|]. exact Hacc1.
    + cbn [bind]. exists (snd st). split; [reflexivity|exact Hst].
  - unfold build_pass. rewrite Hb. cbn [bind]. eauto.
Qed.

End Returns.

(** A [float] counter can stop growing: [16777216.f + 1.f] is [16777216.f],
    so the stepping loop does not leave a lane longer than that when
    [RoadAccuracy] is 1. *)
Lemma float_counter_stalls :
  F32.add (F32.of_Z 16777216) F32.one = F32.of_Z 16777216
  /\ F32.ltb (F32.of_Z 16777216) (F32.of_Z 33554432) = true.
Proof. split; reflexivity. Qed.

(** * Further properties *)

(** ** The builder against the plan of the pass *)

Section PlanFacts.
Context {Waypoint : Type} {M : RoadMap Waypoint}.
Variable fuel : nat.

Lemma install_nil_plan (a : AOpenDriveActor) :
  install (@nil (Waypoint * list (list FVector))) a = a.
Proof.
  unfold install. cbn [plan_pointers List.map]. rewrite !app_nil_r.
  destruct a; reflexivity.
Qed.

Lemma install_cons (entry : Waypoint * list (list FVector)) plan
    (a : AOpenDriveActor) :
  install (entry :: plan) a
  = install plan
      (with_RoutePlanners
         (RoutePlanners a
            ++ repeat (Some (length (World a))) (length (snd entry)))
         (with_World (World a ++ [plan_group (TriggersHeight a) entry]) a)).
Proof.
  unfold install.
  cbn [plan_pointers List.map World RoutePlanners TriggersHeight
         with_World with_RoutePlanners].
  rewrite length_app, Nat.add_1_r, <- !app_assoc. reflexivity.
Qed.

(** A successor not visited before: sample, then record. *)
Lemma successor_body_fresh E Successors rp bs (s : Waypoint) :
  is_visited (AlreadyVisited bs) (ident s) = false ->
  successor_body fuel E Successors (rp, bs) s
  = (Waypoints <- sample_lane (RoadAccuracy (self bs)) fuel s
                    (GetLength (GetRoadId s)) ;;
     let Positions :=
       WaypointVector2FVectorArray Waypoints (TriggersHeight (self bs)) in
     let pw := ensure_planner E Successors rp (self bs) in
     Ok (Some (fst pw),
         mkBuildState (AlreadyVisited bs ++ [ident s])
           (with_RoutePlanners (RoutePlanners (self bs) ++ [Some (fst pw)])
              (with_World
                 (update_planner (AddRoute F32.one Positions) (fst pw)
                    (snd pw))
                 (self bs)))))%outcome.
Proof.
  intros Hv. unfold successor_body. unfold ident in Hv. rewrite Hv.
  cbn [negb].
  destruct (sample_lane _ _ _ _) as [Waypoints| | |]; cbn [bind];
    try reflexivity.
  destruct (ensure_planner E Successors rp (self bs)) as [p w]. reflexivity.
Qed.

Lemma loop_with_planner_plan E Successors (l : list Waypoint) :
  forall bs W0 k r,
    World (self bs) = W0 ++ [mkActor k (RoutePlannerActor r)] ->
    for_each (successor_body fuel E Successors) l (Some (length W0), bs)
    = (polys <- sample_all fuel (RoadAccuracy (self bs))
                  (TriggersHeight (self bs))
                  (contributing (AlreadyVisited bs) l) ;;
       Ok (Some (length W0),
           mkBuildState
             (AlreadyVisited bs
                ++ List.map ident (contributing (AlreadyVisited bs) l))
             (with_RoutePlanners
                (RoutePlanners (self bs)
                   ++ repeat (Some (length W0)) (length polys))
                (with_World
                   (W0 ++ [mkActor k
                             (RoutePlannerActor (add_routes polys r))])
                   (self bs)))))%outcome.
Proof.
  induction l as [|s l IH]; intros bs W0 k r HW;
    cbn [for_each contributing].
  - cbn [sample_all bind List.map length repeat add_routes fold_left].
    rewrite !app_nil_r, <- HW. destruct bs as [v a], a. reflexivity.
  - destruct (is_visited (AlreadyVisited bs) (GetRoadId s, GetLaneId s))
      eqn:Hv.
    + rewrite successor_body_skip by exact Hv. cbn [bind].
      apply (IH bs W0 k r HW).
    + rewrite successor_body_fresh by exact Hv.
      cbn [sample_all].
      destruct (sample_lane _ _ _ _) as [wps| | |]; cbn [bind];
        try reflexivity.
      cbn [ensure_planner fst snd]. rewrite HW, update_planner_last.
      rewrite (IH _ W0 k
                 (AddRoute F32.one
                    (WaypointVector2FVectorArray wps
                       (TriggersHeight (self bs))) r)) by reflexivity.
      cbn [AlreadyVisited self with_RoutePlanners with_World RoadAccuracy
             TriggersHeight RoutePlanners].
      fold (ident s).
      destruct (sample_all _ _ _ _) as [polys| | |]; cbn [bind];
        try reflexivity.
      cbn [List.map length repeat add_routes fold_left].
      rewrite <- !app_assoc. reflexivity.
Qed.

Lemma loop_plan E (l : list Waypoint) :
  forall bs,
    for_each (successor_body fuel E (GetSuccessors E)) l (None, bs)
    = (polys <- sample_all fuel (RoadAccuracy (self bs))
                  (TriggersHeight (self bs))
                  (contributing (AlreadyVisited bs) l) ;;
       Ok (match polys with
           | [] => None
           | _ :: _ => Some (length (World (self bs)))
           end,
           mkBuildState
             (AlreadyVisited bs
                ++ List.map ident (contributing (AlreadyVisited bs) l))
             (match polys with
              | [] => self bs
              | _ :: _ => install [(E, polys)] (self bs)
              end)))%outcome.
Proof.
  induction l as [|s l IH]; intros bs; cbn [for_each contributing].
  - cbn [sample_all bind List.map]. rewrite app_nil_r.
    destruct bs; reflexivity.
  - destruct (is_visited (AlreadyVisited bs) (GetRoadId s, GetLaneId s))
      eqn:Hv.
    + rewrite successor_body_skip by exact Hv. cbn [bind]. apply IH.
    + rewrite successor_body_fresh by exact Hv.
      cbn [sample_all].
      destruct (sample_lane _ _ _ _) as [wps| | |]; cbn [bind];
        try reflexivity.
      cbn [ensure_planner SpawnActor fst snd].
      rewrite !update_planner_last.
      erewrite loop_with_planner_plan by reflexivity.
      cbn [AlreadyVisited self with_RoutePlanners with_World RoadAccuracy
             TriggersHeight RoutePlanners].
      fold (ident s).
      destruct (sample_all _ _ _ _) as [polys| | |]; cbn [bind];
        try reflexivity.
      unfold install, plan_group.
      cbn [List.map length repeat add_routes fold_left plan_pointers fst snd
             World RoutePlanners TriggersHeight].
      rewrite <- !app_assoc, !app_nil_r. reflexivity.
Qed.

Lemma anchor_body_plan (bs : BuildState) (E : Waypoint) :
  anchor_body fuel bs E
  = (polys <- sample_all fuel (RoadAccuracy (self bs))
                (TriggersHeight (self bs))
                (contributing (AlreadyVisited bs) (GetSuccessors E)) ;;
     Ok (after_anchor bs E polys))%outcome.
Proof.
  unfold anchor_body. rewrite loop_plan.
  destruct (sample_all _ _ _ _) as [polys| | |]; reflexivity.
Qed.

Lemma anchors_plan (anchors : list Waypoint) :
  forall bs,
    for_each (anchor_body fuel) anchors bs
    = (plan <- pass_plan fuel (RoadAccuracy (self bs))
                 (TriggersHeight (self bs)) anchors (AlreadyVisited bs) ;;
       Ok (mkBuildState (pass_visited anchors (AlreadyVisited bs))
             (install plan (self bs))))%outcome.
Proof.
  induction anchors as [|E anchors IH]; intros bs;
    cbn [for_each pass_plan pass_visited].
  - cbn [bind]. rewrite install_nil_plan. destruct bs; reflexivity.
  - rewrite anchor_body_plan.
    destruct (sample_all _ _ _ _) as [polys| | |]; cbn [bind];
      try reflexivity.
    rewrite IH. unfold after_anchor. cbn [AlreadyVisited self].
    destruct polys as [|poly polys].
    + destruct (pass_plan _ _ _ _ _) as [plan| | |]; reflexivity.
    + replace (RoadAccuracy (install [(E, poly :: polys)] (self bs)))
        with (RoadAccuracy (self bs)) by reflexivity.
      replace (TriggersHeight (install [(E, poly :: polys)] (self bs)))
        with (TriggersHeight (self bs)) by reflexivity.
      destruct (pass_plan _ _ _ _ _) as [plan| | |]; cbn [bind];
        try reflexivity.
      rewrite (install_cons (E, poly :: polys) plan (self bs)).
      rewrite (install_cons (E, poly :: polys) [] (self bs)).
      rewrite install_nil_plan. reflexivity.
Qed.

Lemma build_pass_plan (a : AOpenDriveActor) :
  build_pass fuel a
  = (plan <- pass_plan fuel (RoadAccuracy a) (TriggersHeight a)
               GenerateLaneEnd [] ;;
     Ok (mkBuildState (pass_visited GenerateLaneEnd []) (install plan a)))
    %outcome.
Proof. unfold build_pass. now rewrite anchors_plan. Qed.

Lemma BuildRoutes_cases ParseError (a a' : AOpenDriveActor) :
  BuildRoutes fuel ParseError a = Ok a' ->
  exists plan,
    a' = install plan a
    /\ (Nat.ltb 0 (String.length ParseError) = false ->
        pass_plan fuel (RoadAccuracy a) (TriggersHeight a) GenerateLaneEnd []
        = Ok plan).
Proof.
  unfold BuildRoutes. destruct (Nat.ltb 0 (String.length ParseError)).
  - intros [= <-]. exists []. split; [|discriminate].
    symmetry. apply install_nil_plan.
  - rewrite build_pass_plan.
    destruct (pass_plan _ _ _ _ _) as [plan| | |]; cbn [bind];
      try discriminate.
    intros [= <-]. exists plan. split; [reflexivity|]. reflexivity.
Qed.

(** The pointers of a plan are non-null and lead to its groups. *)
Lemma plan_pointers_range (plan : list (Waypoint * list (list FVector))) :
  forall n q, In q (plan_pointers n plan) ->
    exists p, q = Some p /\ (n <= p)%nat /\ (p < n + length plan)%nat.
Proof.
  induction plan as [|entry plan IH]; intros n q Hq; cbn [plan_pointers] in Hq.
  - destruct Hq.
  - apply in_app_or in Hq as [Hq|Hq].
    + apply repeat_spec in Hq. subst q. exists n. cbn [length].
      split; [reflexivity|]. lia.
    + destruct (IH _ _ Hq) as (p & -> & Hp1 & Hp2). exists p.
      cbn [length]. split; [reflexivity|]. lia.
Qed.

Lemma plan_pointers_length (plan : list (Waypoint * list (list FVector))) :
  forall n,
    length (plan_pointers n plan)
    = list_sum (List.map (fun entry => length (snd entry)) plan).
Proof.
  induction plan as [|entry plan IH]; intros n; cbn [plan_pointers List.map].
  - reflexivity.
  - rewrite length_app, repeat_length, IH. reflexivity.
Qed.

End PlanFacts.

(** ** The visited list of a pass *)

Section Coverage.
Context {Waypoint : Type} {M : RoadMap Waypoint}.






End Coverage.


(** ** What a build does to the actor *)

Section BuildEffect.
Context {Waypoint : Type} {M : RoadMap Waypoint}.

(** X2: a build is the plan of its pass, installed: unless the map failed to
    parse, it samples the unvisited successors of each anchor in order, fails
    as the first failing lane does, and otherwise appends one planner per
    anchor that has such successors and one pointer per polyline; whether and
    how it fails does not depend on the world or on the collections. *)
Theorem BuildRoutes_installs_plan (fuel : nat) (ParseError : string)
    (a : AOpenDriveActor) :
  BuildRoutes fuel ParseError a
  = if Nat.ltb 0 (String.length ParseError) then Ok a
    else (plan <- pass_plan fuel (RoadAccuracy a) (TriggersHeight a)
                    GenerateLaneEnd [] ;;
          Ok (install plan a))%outcome.
Proof.
  unfold BuildRoutes.
  destruct (Nat.ltb 0 (String.length ParseError)); [reflexivity|].
  rewrite build_pass_plan.
  destruct (pass_plan _ _ _ _ _) as [plan| | |]; reflexivity.
Qed.

(** X3: a build only appends.  The actors of the world and the entries of the
    collection it started from are kept as they are, in place; what it adds to
    the world are live route planners, what it adds to the collection are
    non-null pointers to those; the spawners, the debug lines, the settings
    and the flags are untouched. *)
Theorem BuildRoutes_only_appends (fuel : nat) (ParseError : string)
    (a a' : AOpenDriveActor) :
  BuildRoutes fuel ParseError a = Ok a' ->
  (exists groups added,
      World a' = World a ++ groups
      /\ RoutePlanners a' = RoutePlanners a ++ added
      /\ Forall (fun x => pending_kill x = false /\ ~ is_spawn_point x) groups
      /\ Forall (fun q => exists p r,
                    q = Some p /\ (length (World a) <= p)%nat
                    /\ planner_at (World a') p = Some r) added)
  /\ DebugLines a' = DebugLines a
  /\ VehicleSpawners a' = VehicleSpawners a
  /\ (RoadAccuracy a', TriggersHeight a', SpawnersHeight a')
     = (RoadAccuracy a, TriggersHeight a, SpawnersHeight a)
  /\ (bGenerateRoutes a', bRemoveRoutes a', bShowDebug a',
      bRemoveCurrentSpawners a', bAddSpawners a', bOnIntersections a')
     = (bGenerateRoutes a, bRemoveRoutes a, bShowDebug a,
        bRemoveCurrentSpawners a, bAddSpawners a, bOnIntersections a).
Proof.
  intros H. apply BuildRoutes_cases in H as (plan & -> & _).
  split; [|repeat split].
  exists (List.map (plan_group (TriggersHeight a)) plan),
         (plan_pointers (length (World a)) plan).
  unfold install. cbn [World RoutePlanners with_World with_RoutePlanners].
  split; [reflexivity|]. split; [reflexivity|]. split.
  - apply List.Forall_forall. intros x Hx.
    apply in_map_iff in Hx as (entry & <- & _). split; [reflexivity|].
    intros [].
  - apply List.Forall_forall. intros q Hq.
    apply plan_pointers_range in Hq as (p & -> & Hp1 & Hp2).
    assert (Hlook : exists entry,
               List.map (plan_group (TriggersHeight a)) plan
                 !! (p - length (World a))%nat
               = Some (plan_group (TriggersHeight a) entry)).
    { destruct (lookup_lt_is_Some_2 plan (p - length (World a))%nat)
        as (entry & He); [lia|].
      exists entry. now rewrite list_lookup_fmap, He. }
    destruct Hlook as (entry & He).
    exists p, (add_routes (snd entry)
                 (anchor_planner (TriggersHeight a) (fst entry))).
    split; [reflexivity|]. split; [exact Hp1|].
    unfold planner_at. rewrite lookup_app_r by exact Hp1. now rewrite He.
Qed.

(** X4: building again without clearing doubles the routes: a second build on
    the result of the first returns too and appends the same groups once more
    (the overlap that the rebuild command avoids by clearing first). *)
Theorem BuildRoutes_twice_overlaps (fuel : nat) (ParseError : string)
    (a a' : AOpenDriveActor) :
  BuildRoutes fuel ParseError a = Ok a' ->
  exists groups a'',
    World a' = World a ++ groups
    /\ BuildRoutes fuel ParseError a' = Ok a''
    /\ World a'' = World a ++ groups ++ groups
    /\ (length (RoutePlanners a'') + length (RoutePlanners a)
        = 2 * length (RoutePlanners a'))%nat.
Proof.
  intros H. pose proof H as H0.
  apply BuildRoutes_cases in H as (plan & -> & Hplan).
  exists (List.map (plan_group (TriggersHeight a)) plan),
         (install plan (install plan a)).
  split; [reflexivity|]. split; [|split].
  - revert H0. unfold BuildRoutes.
    destruct (Nat.ltb 0 (String.length ParseError)) eqn:Hpe.
    + intros [= Heq]. f_equal. congruence.
    + intros _. rewrite build_pass_plan.
      replace (RoadAccuracy (install plan a)) with (RoadAccuracy a)
        by reflexivity.
      replace (TriggersHeight (install plan a)) with (TriggersHeight a)
        by reflexivity.
      rewrite (Hplan eq_refl). reflexivity.
  - unfold install.
    cbn [World RoutePlanners TriggersHeight with_World with_RoutePlanners].
    now rewrite <- app_assoc.
  - unfold install.
    cbn [World RoutePlanners TriggersHeight with_World with_RoutePlanners].
    rewrite !length_app, !plan_pointers_length. lia.
Qed.

Lemma pass_plan_no_successor (fuel : nat) (acc height : F32.float)
    (anchors : list Waypoint) :
  (forall E, In E anchors -> GetSuccessors E = []) ->
  forall visited, pass_plan fuel acc height anchors visited = Ok [].
Proof.
  induction anchors as [|E anchors IH]; intros Hdead visited;
    cbn [pass_plan]; [reflexivity|].
  rewrite (Hdead E) by now left.
  cbn [contributing sample_all bind List.map].
  rewrite IH by (intros E' HE'; apply Hdead; now right). reflexivity.
Qed.

(** X5: dead ends give no routes.  On a map none of whose lane-end anchors
    has a successor (an empty map among them) a build returns the actor as it
    was, whatever the accuracy; no planner is spawned and nothing is sampled,
    so the outcome needs no fuel. *)
Theorem BuildRoutes_dead_ends (fuel : nat) (ParseError : string)
    (a : AOpenDriveActor) :
  (forall E, In E GenerateLaneEnd -> GetSuccessors E = []) ->
  BuildRoutes fuel ParseError a = Ok a.
Proof.
  intros Hdead. unfold BuildRoutes.
  destruct (Nat.ltb 0 (String.length ParseError)); [reflexivity|].
  rewrite build_pass_plan, pass_plan_no_successor by exact Hdead.
  cbn [bind self]. now rewrite install_nil_plan.
Qed.

End BuildEffect.

Lemma BuildRoutes_only_appends_witness :
  VehicleSpawners fork_built = VehicleSpawners (fresh_actor ten)
  /\ DebugLines fork_built = DebugLines (fresh_actor ten).
Proof.
  destruct (BuildRoutes_only_appends (M := fork) 2 EmptyString
              (fresh_actor ten) fork_built (fork_build O))
    as (_ & HD & HV & _).
  split; [exact HV|exact HD].
Defined.

Lemma BuildRoutes_twice_overlaps_witness :
  exists a'',
    BuildRoutes (M := scenario_B) 2 EmptyString scenario_B_built = Ok a''
    /\ (length (RoutePlanners a'') + 0 = 2)%nat.
Proof.
  destruct (BuildRoutes_twice_overlaps (M := scenario_B) 2 EmptyString
              (fresh_actor ten) scenario_B_built (scenario_B_build O))
    as (groups & a'' & _ & H & _ & Hlen).
  exists a''. split; [exact H|exact Hlen].
Defined.

Lemma BuildRoutes_dead_ends_witness :
  (forall E, In E (GenerateLaneEnd (RoadMap := dead_end)) ->
             GetSuccessors (RoadMap := dead_end) E = [])
  /\ BuildRoutes (M := dead_end) 0 EmptyString (fresh_actor ten)
     = Ok (fresh_actor ten).
Proof.
  assert (H : forall E, In E (GenerateLaneEnd (RoadMap := dead_end)) ->
                        GetSuccessors (RoadMap := dead_end) E = [])
    by (intros E _; reflexivity).
  split; [exact H|].
  apply (BuildRoutes_dead_ends (M := dead_end) 0 EmptyString
           (fresh_actor ten) H).
Defined.

(** ** More on the sampler *)


Section SamplerShape.
Context {Waypoint : Type} {M : RoadMap Waypoint}.
Variable RoadAccuracy : F32.float.

Lemma sample_loop_shape fuel (Successor : Waypoint) MaxDist :
  forall Dist Waypoints out,
    sample_loop RoadAccuracy fuel Successor MaxDist Dist Waypoints = Ok out ->
    exists ds,
      loop_dists RoadAccuracy fuel MaxDist Dist = Some ds
      /\ Forall (fun d => F32.ltb d MaxDist = true
                          /\ exists w, GetNext Successor d = [w]) ds
      /\ out = Waypoints ++ flat_map (GetNext Successor) ds
      /\ length (flat_map (GetNext Successor) ds) = length ds.
Proof.
  induction fuel as [|fuel IH]; intros Dist Waypoints out H.
  - discriminate.
  - cbn [loop_dists]. destruct (F32.ltb Dist MaxDist) eqn:Hlt.
    + rewrite sample_loop_step in H by assumption.
      destruct (GetNext Successor Dist) as [|w [|w' ws]] eqn:Hn;
        try discriminate.
      apply IH in H as (ds & -> & Hall & -> & Hlen).
      exists (Dist :: ds). cbn [option_map flat_map]. rewrite Hn.
      split; [reflexivity|]. split; [|split].
      * constructor; [|exact Hall]. split; [exact Hlt|]. now exists w.
      * now rewrite <- app_assoc.
      * cbn [app length]. now rewrite Hlen.
    + rewrite sample_loop_exit in H by assumption. inversion H; subst.
      exists []. cbn [flat_map]. rewrite app_nil_r.
      split; [reflexivity|]. split; [constructor|]. split; reflexivity.
Qed.

(** X6: the shape of a sampled lane.  Its first point is the waypoint the
    lane was entered at; then comes the single answer to each query of the
    stepping loop, every one at a distance strictly below [MaxDist]; its last
    point is the first answer at the clamped distance; it has two points more
    than the loop made queries. *)
Theorem sampled_lane_shape fuel (Successor : Waypoint) MaxDist out :
  sample_lane RoadAccuracy fuel Successor MaxDist = Ok out ->
  exists ds w rest,
    loop_dists RoadAccuracy fuel MaxDist RoadAccuracy = Some ds
    /\ Forall (fun d => F32.ltb d MaxDist = true
                        /\ exists x, GetNext Successor d = [x]) ds
    /\ GetNext Successor (final_dist MaxDist) = w :: rest
    /\ out = Successor :: flat_map (GetNext Successor) ds ++ [w]
    /\ length out = (2 + length ds)%nat.
Proof.
  intros H. apply sample_lane_inv in H as (body & w & rest & Hl & Hn & ->).
  apply sample_loop_shape in Hl as (ds & Hd & Hall & -> & Hlen).
  exists ds, w, rest. repeat split; try assumption.
  cbn [app length]. rewrite length_app, Hlen. cbn [length]. lia.
Qed.

(** X7: a counter that does not move never ends the loop.  If adding the
    accuracy to [Dist] gives [Dist] again while [Dist < MaxDist] (a zero
    accuracy, or a distance too large for the accuracy to count), the loop
    started at [Dist] returns no polyline for any amount of fuel; with a
    zero accuracy no lane of positive length is ever sampled. *)
Theorem stalled_counter_never_returns (Successor : Waypoint) MaxDist Dist :
  F32.add Dist RoadAccuracy = Dist ->
  F32.ltb Dist MaxDist = true ->
  (forall fuel Waypoints out,
      sample_loop RoadAccuracy fuel Successor MaxDist Dist Waypoints
      <> Ok out)
  /\ (Dist = RoadAccuracy ->
      forall fuel out,
        sample_lane RoadAccuracy fuel Successor MaxDist <> Ok out).
Proof.
  intros Hstall Hlt.
  assert (Hloop : forall fuel Waypoints out,
             sample_loop RoadAccuracy fuel Successor MaxDist Dist Waypoints
             <> Ok out).
  { induction fuel as [|fuel IH]; intros Waypoints out H; [discriminate|].
    rewrite sample_loop_step in H by assumption.
    destruct (GetNext Successor Dist) as [|w [|w' ws]]; try discriminate.
    rewrite Hstall in H. eapply IH; eauto. }
  split; [exact Hloop|].
  intros -> fuel out H.
  apply sample_lane_inv in H as (body & _ & _ & Hl & _). eapply Hloop; eauto.
Qed.

End SamplerShape.

Lemma sampled_lane_shape_witness :
  exists ds w rest,
    loop_dists ten 2 twenty ten = Some ds
    /\ Forall (fun d => F32.ltb d twenty = true
                 /\ exists x, GetNext (RoadMap := scenario_B) (lane_start 2) d
                              = [x]) ds
    /\ GetNext (RoadMap := scenario_B) (lane_start 2) (final_dist twenty)
       = w :: rest
    /\ [at_s 2 F32.zero; at_s 2 ten; at_s 2 nineteen_nine]
       = lane_start 2
           :: flat_map (GetNext (RoadMap := scenario_B) (lane_start 2)) ds
           ++ [w]
    /\ length [at_s 2 F32.zero; at_s 2 ten; at_s 2 nineteen_nine]
       = (2 + length ds)%nat.
Proof.
  apply (sampled_lane_shape (M := scenario_B) ten 2 (lane_start 2) twenty).
  reflexivity.
Defined.

Lemma stalled_counter_never_returns_witness :
  F32.add F32.zero F32.zero = F32.zero
  /\ F32.ltb F32.zero twenty = true
  /\ forall fuel out,
       sample_lane (M := scenario_B) F32.zero fuel (lane_start 2) twenty
       <> Ok out.
Proof.
  split; [reflexivity|]. split; [reflexivity|].
  destruct (stalled_counter_never_returns (M := scenario_B) F32.zero
              (lane_start 2) twenty F32.zero eq_refl eq_refl) as (_ & H).
  exact (H eq_refl).
Defined.



(** ** [WaypointVector2FVectorArray] *)



(** ** [Destroy] over a collection *)

Lemma killed_killed (x : Actor) : killed (killed x) = killed x.
Proof. reflexivity. Qed.

Lemma Destroy_lookup (p i : nat) (W : list Actor) :
  Destroy p W !! i
  = (if Nat.eqb p i then killed else id) <$> (W !! i).
Proof.
  unfold Destroy. fold killed. rewrite list_lookup_alter.
  destruct (Nat.eqb_spec p i) as [->|Hne].
  - rewrite decide_True by reflexivity. reflexivity.
  - rewrite decide_False by exact Hne. now destruct (W !! i).
Qed.

Lemma destroy_all_lookup (v : list (option nat)) :
  forall (W : list Actor) (i : nat),
    destroy_all v W !! i
    = (if listed i v then killed else id) <$> (W !! i).
Proof.
  induction v as [|[p|] v IH]; intros W i; cbn [destroy_all listed existsb].
  - now destruct (W !! i).
  - rewrite IH, Destroy_lookup. fold (listed i v).
    destruct (W !! i) as [x|]; [|reflexivity].
    destruct (Nat.eqb p i), (listed i v); reflexivity.
  - rewrite IH. reflexivity.
Qed.

Lemma destroy_all_same_length (v : list (option nat)) :
  forall W : list Actor, length (destroy_all v W) = length W.
Proof.
  induction v as [|[p|] v IH]; intros W; cbn [destroy_all]; auto.
  rewrite IH. unfold Destroy. apply length_alter.
Qed.

Lemma listed_seq (i n m : nat) :
  listed i (List.map Some (seq n m)) = true <-> (n <= i < n + m)%nat.
Proof.
  unfold listed. rewrite existsb_exists. split.
  - intros (q & Hq & Hi). apply in_map_iff in Hq as (p & <- & Hp).
    apply Nat.eqb_eq in Hi. subst p. apply in_seq in Hp. exact Hp.
  - intros Hi. exists (Some i). split; [|apply Nat.eqb_refl].
    apply in_map, in_seq. exact Hi.
Qed.

(** X10: [RemoveRoutes] destroys exactly what its collection points to.
    Every actor that a non-null entry of [RoutePlanners] points to is marked
    as destroyed, be it listed once or several times; every other actor is
    left as it is; no actor loses or changes its data and the world keeps its
    size; the collection of spawners is not touched. *)
Theorem RemoveRoutes_destroys_listed (a : AOpenDriveActor) :
  (forall i,
      World (RemoveRoutes a) !! i
      = (if listed i (RoutePlanners a) then killed else id)
          <$> (World a !! i))
  /\ length (World (RemoveRoutes a)) = length (World a)
  /\ List.map data (World (RemoveRoutes a)) = List.map data (World a)
  /\ VehicleSpawners (RemoveRoutes a) = VehicleSpawners a.
Proof.
  assert (Hlook : forall i,
             World (RemoveRoutes a) !! i
             = (if listed i (RoutePlanners a) then killed else id)
                 <$> (World a !! i))
    by (intros i; apply destroy_all_lookup).
  split; [exact Hlook|]. split; [apply destroy_all_same_length|].
  split; [|reflexivity].
  apply list_eq. intros i. rewrite !list_lookup_fmap, Hlook.
  destruct (World a !! i) as [x|]; [|reflexivity].
  now destruct (listed i (RoutePlanners a)).
Qed.

(** ** [AddSpawners] *)

Lemma planner_at_app_spawners (W S : list Actor) (p : nat) :
  Forall is_spawn_point S -> planner_at (W ++ S) p = planner_at W p.
Proof.
  intros HS. unfold planner_at.
  destruct (Nat.lt_ge_cases p (length W)) as [Hlt|Hge].
  - now rewrite lookup_app_l.
  - rewrite lookup_app_r by exact Hge.
    rewrite (lookup_ge_None_2 W p Hge).
    destruct (S !! (p - length W)%nat) as [[k [r|v]]|] eqn:Hl;
      try reflexivity.
    apply (Forall_lookup_1 _ _ _ _ HS) in Hl. destruct Hl.
Qed.

Lemma spawner_of_is_spawn_point (a : AOpenDriveActor) q x :
  spawner_of a q = Some x -> is_spawn_point x.
Proof.
  unfold spawner_of. destruct q as [p|]; [|discriminate].
  destruct (planner_at (World a) p) as [r|]; [|discriminate].
  destruct (negb (bOnIntersections a) && bIsIntersection r);
    [discriminate|].
  intros [= <-]. exact I.
Qed.

Lemma spawner_body_spec (a : AOpenDriveActor) (q : option nat) :
  spawner_body a q
  = match spawner_of a q with
    | None => a
    | Some x =>
        with_VehicleSpawners (VehicleSpawners a ++ [Some (length (World a))])
          (with_World (World a ++ [x]) a)
    end.
Proof.
  unfold spawner_body, spawner_of. destruct q as [p|]; [|reflexivity].
  destruct (planner_at (World a) p) as [r|]; [|reflexivity].
  now destruct (negb (bOnIntersections a) && bIsIntersection r).
Qed.

Lemma spawner_of_after (a : AOpenDriveActor) (S : list Actor)
    (V : list (option nat)) (q : option nat) :
  Forall is_spawn_point S ->
  spawner_of (with_VehicleSpawners V (with_World (World a ++ S) a)) q
  = spawner_of a q.
Proof.
  intros HS. unfold spawner_of. destruct q as [p|]; [|reflexivity].
  cbn [World with_World with_VehicleSpawners bOnIntersections SpawnersHeight].
  now rewrite planner_at_app_spawners.
Qed.

Lemma omap_pointwise {A B} (f g : A -> option B) (l : list A) :
  (forall x, f x = g x) -> omap f l = omap g l.
Proof.
  intros Hfg. induction l as [|x l IH]; [reflexivity|].
  change (omap f (x :: l))
    with (match f x with Some y => y :: omap f l | None => omap f l end).
  change (omap g (x :: l))
    with (match g x with Some y => y :: omap g l | None => omap g l end).
  now rewrite Hfg, IH.
Qed.

Lemma AddSpawners_fold (l : list (option nat)) :
  forall a : AOpenDriveActor,
    fold_left spawner_body l a
    = with_VehicleSpawners
        (VehicleSpawners a
           ++ List.map Some
                (seq (length (World a)) (length (omap (spawner_of a) l))))
        (with_World (World a ++ omap (spawner_of a) l) a).
Proof.
  induction l as [|q l IH]; intros a; cbn [fold_left].
  - cbn. rewrite !app_nil_r. destruct a; reflexivity.
  - rewrite spawner_body_spec.
    change (omap (spawner_of a) (q :: l))
      with (match spawner_of a q with
            | Some y => y :: omap (spawner_of a) l
            | None => omap (spawner_of a) l
            end).
    destruct (spawner_of a q) as [x|] eqn:Hq; [|apply IH].
    rewrite IH.
    assert (Hsame : omap (spawner_of
                            (with_VehicleSpawners
                               (VehicleSpawners a ++ [Some (length (World a))])
                               (with_World (World a ++ [x]) a))) l
                    = omap (spawner_of a) l).
    { apply omap_pointwise. intros q'. apply spawner_of_after.
      constructor; [|constructor].
      eapply spawner_of_is_spawn_point; eauto. }
    rewrite Hsame.
    cbn [World VehicleSpawners with_World with_VehicleSpawners length seq
           List.map].
    rewrite length_app, Nat.add_1_r, <- !app_assoc. reflexivity.
Qed.

Lemma omap_length_le {A B} (f : A -> option B) (l : list A) :
  (length (omap f l) <= length l)%nat.
Proof.
  induction l as [|x l IH]; [reflexivity|].
  change (omap f (x :: l))
    with (match f x with Some y => y :: omap f l | None => omap f l end).
  destruct (f x); cbn [length]; lia.
Qed.

(** X11: what [AddSpawners] adds.  Going through the collection in order, it
    appends one spawn point to the world and one pointer to it to
    [VehicleSpawners] for every entry that leads to a route planner, an
    entry listed twice counting twice; the spawn point has the rotation of
    the planner and its location raised by [SpawnersHeight]; unless
    [bOnIntersections] is set, planners flagged as intersections get none.
    The planners and their collection are not touched. *)
Theorem AddSpawners_spawns (a : AOpenDriveActor) :
  World (AddSpawners a)
  = World a ++ omap (spawner_of a) (RoutePlanners a)
  /\ VehicleSpawners (AddSpawners a)
     = VehicleSpawners a
         ++ List.map Some
              (seq (length (World a))
                 (length (omap (spawner_of a) (RoutePlanners a))))
  /\ RoutePlanners (AddSpawners a) = RoutePlanners a
  /\ (length (omap (spawner_of a) (RoutePlanners a))
      <= length (RoutePlanners a))%nat
  /\ Forall (fun x => exists p r,
                In (Some p) (RoutePlanners a)
                /\ planner_at (World a) p = Some r
                /\ (bOnIntersections a = true \/ bIsIntersection r = false)
                /\ x = mkActor false
                         (VehicleSpawnPointActor
                            (mkSpawnPoint (PlannerRotation r)
                               (FVector_add (PlannerLocation r)
                                  (mkFVector F32.zero F32.zero
                                     (SpawnersHeight a))))))
       (omap (spawner_of a) (RoutePlanners a)).
Proof.
  unfold AddSpawners. rewrite AddSpawners_fold.
  split; [reflexivity|]. split; [reflexivity|]. split; [reflexivity|].
  split; [apply omap_length_le|].
  apply List.Forall_forall. intros x Hx.
  apply list_elem_of_In, list_elem_of_omap in Hx as (q & Hq & Hx).
  apply list_elem_of_In in Hq. unfold spawner_of in Hx.
  destruct q as [p|]; [|discriminate].
  destruct (planner_at (World a) p) as [r|] eqn:Hr; [|discriminate].
  destruct (bOnIntersections a) eqn:Hon, (bIsIntersection r) eqn:Hint;
    cbn [negb andb] in Hx; try discriminate;
    injection Hx as <-; exists p, r; auto.
Qed.

(** X12: spawners come and go without touching the routes.  On an actor
    that lists no spawner, [AddSpawners] followed by [RemoveSpawners] leaves
    the collection of planners and every actor of the world as they were; the
    spawn points added in between stay in the world, marked as destroyed, and
    [VehicleSpawners] is empty again. *)
Theorem AddSpawners_then_RemoveSpawners (a : AOpenDriveActor) :
  VehicleSpawners a = [] ->
  World (RemoveSpawners (AddSpawners a))
  = World a ++ List.map killed (omap (spawner_of a) (RoutePlanners a))
  /\ VehicleSpawners (RemoveSpawners (AddSpawners a)) = []
  /\ RoutePlanners (RemoveSpawners (AddSpawners a)) = RoutePlanners a.
Proof.
  intros HV. unfold AddSpawners. rewrite AddSpawners_fold, HV.
  unfold RemoveSpawners.
  cbn [World VehicleSpawners RoutePlanners with_World with_VehicleSpawners
         app].
  split; [|split; reflexivity].
  apply list_eq. intros i. rewrite destroy_all_lookup.
  destruct (Nat.lt_ge_cases i (length (World a))) as [Hlt|Hge].
  - rewrite !lookup_app_l by exact Hlt.
    destruct (listed i _) eqn:Hl; [|now destruct (World a !! i)].
    apply listed_seq in Hl. lia.
  - rewrite !lookup_app_r by exact Hge. rewrite list_lookup_fmap.
    destruct (omap (spawner_of a) (RoutePlanners a)
                !! (i - length (World a))%nat) as [x|] eqn:Hx;
      [|reflexivity].
    apply lookup_lt_Some in Hx.
    replace (listed i _) with true; [reflexivity|].
    symmetry. apply listed_seq. lia.
Qed.

Lemma AddSpawners_then_RemoveSpawners_witness :
  VehicleSpawners fork_built = []
  /\ RoutePlanners (RemoveSpawners (AddSpawners fork_built))
     = [Some O; Some O]
  /\ length (World (RemoveSpawners (AddSpawners fork_built))) = 3%nat.
Proof.
  destruct (AddSpawners_then_RemoveSpawners fork_built eq_refl)
    as (HW & _ & HR).
  split; [reflexivity|]. split; [exact HR|]. rewrite HW. reflexivity.
Defined.

(** ** The editor commands *)

Lemma destroy_all_data (v : list (option nat)) (W : list Actor) :
  List.map data (destroy_all v W) = List.map data W.
Proof.
  apply list_eq. intros i. rewrite !list_lookup_fmap, destroy_all_lookup.
  destruct (W !! i) as [x|]; [|reflexivity].
  now destruct (listed i v).
Qed.

Section Commands.
Context {Waypoint : Type} {M : RoadMap Waypoint}.
Variable fuel : nat.

(** X13: the remove command clears everything it knows of.  With
    [bRemoveRoutes] set, the handler returns whatever the map is, resets the
    flag, empties both collections and the debug lines, and marks as
    destroyed exactly the actors that one of the two collections pointed to;
    the other actors are left as they were. *)
Theorem remove_command_clears (ParseError : string) (a : AOpenDriveActor) :
  bRemoveRoutes a = true ->
  exists a',
    PostEditChangeProperty fuel ParseError NAME_bRemoveRoutes a = Ok a'
    /\ RoutePlanners a' = [] /\ VehicleSpawners a' = []
    /\ DebugLines a' = [] /\ bRemoveRoutes a' = false
    /\ forall i,
         World a' !! i
         = (if listed i (RoutePlanners a) || listed i (VehicleSpawners a)
            then killed else id) <$> (World a !! i).
Proof.
  intros Hflag. unfold PostEditChangeProperty. cbn [FName_eqb bind].
  rewrite Hflag. eexists. split; [reflexivity|].
  repeat (split; [reflexivity|]).
  intros i. unfold RemoveRoutes, RemoveSpawners, RemoveDebugRoutes.
  cbn [World RoutePlanners VehicleSpawners with_World with_RoutePlanners
         with_VehicleSpawners with_DebugLines with_bRemoveRoutes].
  rewrite !destroy_all_lookup.
  destruct (World a !! i) as [x|]; [|reflexivity].
  now destruct (listed i (RoutePlanners a)), (listed i (VehicleSpawners a)).
Qed.

(** X14: only the rebuild command can fail or spawn.  For an edit of any
    other property, and for an edit of [bGenerateRoutes] that leaves it
    unset, the handler returns; it spawns no actor and changes no actor's
    data, it leaves the collection of planners as it was or empties it, and
    it leaves the settings alone. *)
Theorem only_rebuild_builds (ParseError : string) (PropertyName : FName)
    (a : AOpenDriveActor) :
  PropertyName <> NAME_bGenerateRoutes \/ bGenerateRoutes a = false ->
  exists a',
    PostEditChangeProperty fuel ParseError PropertyName a = Ok a'
    /\ List.map data (World a') = List.map data (World a)
    /\ (RoutePlanners a' = RoutePlanners a \/ RoutePlanners a' = [])
    /\ (RoadAccuracy a', TriggersHeight a', SpawnersHeight a')
       = (RoadAccuracy a, TriggersHeight a, SpawnersHeight a).
Proof.
  intros Hcase. unfold PostEditChangeProperty, on_generate_routes.
  destruct PropertyName; cbn [FName_eqb bind].
  - destruct Hcase as [Hne|Hflag]; [congruence|]. rewrite Hflag.
    cbn [bind]. eexists. split; [reflexivity|]. auto.
  - destruct (bRemoveRoutes a); eexists; (split; [reflexivity|]); auto.
    split; [|auto].
    unfold RemoveRoutes, RemoveSpawners, RemoveDebugRoutes.
    cbn [World RoutePlanners VehicleSpawners with_World with_RoutePlanners
           with_VehicleSpawners with_DebugLines with_bRemoveRoutes].
    now rewrite !destroy_all_data.
  - destruct (bShowDebug a); eexists; (split; [reflexivity|]); auto.
  - destruct (bRemoveCurrentSpawners a); eexists; (split; [reflexivity|]);
      auto.
    split; [|auto]. unfold RemoveSpawners.
    cbn [World VehicleSpawners with_World with_VehicleSpawners
           with_bRemoveCurrentSpawners].
    now rewrite destroy_all_data.
  - eexists. split; [reflexivity|]. auto.
Qed.

(** The step of the rebuild command after the build. *)
Lemma after_build_steps (a2 : AOpenDriveActor) :
  exists S,
    World (if bShowDebug (if bAddSpawners a2 then AddSpawners a2 else a2)
           then DebugRoutes (if bAddSpawners a2 then AddSpawners a2 else a2)
           else (if bAddSpawners a2 then AddSpawners a2 else a2))
    = World a2 ++ S
    /\ RoutePlanners
         (if bShowDebug (if bAddSpawners a2 then AddSpawners a2 else a2)
          then DebugRoutes (if bAddSpawners a2 then AddSpawners a2 else a2)
          else (if bAddSpawners a2 then AddSpawners a2 else a2))
       = RoutePlanners a2
    /\ bGenerateRoutes
         (if bShowDebug (if bAddSpawners a2 then AddSpawners a2 else a2)
          then DebugRoutes (if bAddSpawners a2 then AddSpawners a2 else a2)
          else (if bAddSpawners a2 then AddSpawners a2 else a2))
       = bGenerateRoutes a2
    /\ (bAddSpawners a2 = false ->
        VehicleSpawners
          (if bShowDebug (if bAddSpawners a2 then AddSpawners a2 else a2)
           then DebugRoutes (if bAddSpawners a2 then AddSpawners a2 else a2)
           else (if bAddSpawners a2 then AddSpawners a2 else a2))
        = VehicleSpawners a2).
Proof.
  destruct (bAddSpawners a2) eqn:Hadd.
  - exists (omap (spawner_of a2) (RoutePlanners a2)).
    unfold AddSpawners. rewrite AddSpawners_fold.
    cbn [bShowDebug with_World with_VehicleSpawners].
    destruct (bShowDebug a2); repeat split; try reflexivity; discriminate.
  - exists []. rewrite app_nil_r.
    destruct (bShowDebug a2); repeat split; reflexivity.
Qed.

(** X15: a rebuild that returns replaces the routes.  The flag is reset;
    every entry of the new collection is a non-null pointer to a live route
    planner spawned by this rebuild; every actor that the old collections
    pointed to is still in its place, marked as destroyed; without
    [bAddSpawners] no spawner is listed afterwards. *)
Theorem rebuild_replaces_routes (ParseError : string)
    (a a' : AOpenDriveActor) :
  bGenerateRoutes a = true ->
  PostEditChangeProperty fuel ParseError NAME_bGenerateRoutes a = Ok a' ->
  bGenerateRoutes a' = false
  /\ Forall (fun q => exists p r,
                q = Some p /\ (length (World a) <= p)%nat
                /\ World a' !! p = Some (mkActor false (RoutePlannerActor r)))
       (RoutePlanners a')
  /\ (forall i x,
         World a !! i = Some x ->
         listed i (RoutePlanners a) || listed i (VehicleSpawners a) = true ->
         World a' !! i = Some (killed x))
  /\ (bAddSpawners a = false -> VehicleSpawners a' = []).
Proof.
  intros Hflag H. unfold PostEditChangeProperty, on_generate_routes in H.
  cbn [FName_eqb] in H. rewrite Hflag in H.
  destruct (BuildRoutes fuel ParseError _) as [a2| | |] eqn:HB;
    cbn [bind] in H; try discriminate.
  injection H as <-.
  apply BuildRoutes_cases in HB as (plan & -> & _).
  match goal with
  | |- context [install plan ?b] => set (a1 := b)
  end.
  destruct (after_build_steps (install plan a1)) as (S & HW & HR & HG & HV).
  assert (Hlen1 : length (World a1) = length (World a)).
  { unfold a1, RemoveSpawners, RemoveRoutes.
    cbn [World VehicleSpawners RoutePlanners with_World with_RoutePlanners
           with_VehicleSpawners with_bGenerateRoutes].
    now rewrite !destroy_all_same_length. }
  split; [rewrite HG; reflexivity|]. split; [|split].
  - rewrite HR, HW. unfold install at 1.
    cbn [RoutePlanners with_RoutePlanners with_World]. unfold a1 at 1.
    cbn [RoutePlanners RemoveSpawners RemoveRoutes with_RoutePlanners
           with_World with_VehicleSpawners app].
    apply List.Forall_forall. intros q Hq.
    apply plan_pointers_range in Hq as (p & -> & Hp1 & Hp2).
    destruct (lookup_lt_is_Some_2 plan (p - length (World a1))%nat)
      as (entry & He); [lia|].
    exists p, (add_routes (snd entry)
                 (anchor_planner (TriggersHeight a1) (fst entry))).
    split; [reflexivity|]. split; [lia|].
    unfold install. cbn [World with_World with_RoutePlanners].
    rewrite lookup_app_l
      by (rewrite length_app, length_map; lia).
    rewrite lookup_app_r by exact Hp1.
    now rewrite list_lookup_fmap, He.
  - intros i x Hx Hl. rewrite HW.
    pose proof (lookup_lt_Some _ _ _ Hx) as Hi.
    unfold install. cbn [World with_World with_RoutePlanners].
    rewrite !lookup_app_l
      by (rewrite ?length_app; lia).
    unfold a1, RemoveSpawners, RemoveRoutes.
    cbn [World VehicleSpawners RoutePlanners with_World with_RoutePlanners
           with_VehicleSpawners with_bGenerateRoutes].
    rewrite !destroy_all_lookup, Hx. cbn [fmap option_fmap option_map].
    destruct (listed i (RoutePlanners a)), (listed i (VehicleSpawners a));
      try reflexivity. discriminate.
  - intros Hadd. rewrite HV by exact Hadd. reflexivity.
Qed.

End Commands.

Lemma remove_command_clears_witness :
  exists a',
    PostEditChangeProperty (M := fork) 0 EmptyString NAME_bRemoveRoutes
      (with_bRemoveRoutes true fork_built) = Ok a'
    /\ RoutePlanners a' = []
    /\ World a' !! O = killed <$> (World fork_built !! O).
Proof.
  destruct (remove_command_clears (M := fork) 0 EmptyString
              (with_bRemoveRoutes true fork_built) eq_refl)
    as (a' & H & HR & _ & _ & _ & HW).
  exists a'. split; [exact H|]. split; [exact HR|]. exact (HW O).
Defined.

Lemma only_rebuild_builds_witness :
  exists a',
    PostEditChangeProperty (M := fork) 0 EmptyString NAME_bShowDebug
      fork_built = Ok a'
    /\ List.map data (World a') = List.map data (World fork_built).
Proof.
  destruct (only_rebuild_builds (M := fork) 0 EmptyString NAME_bShowDebug
              fork_built) as (a' & H & HD & _).
  - left. discriminate.
  - exists a'. split; [exact H|exact HD].
Defined.

Lemma rebuild_replaces_routes_witness :
  exists a',
    PostEditChangeProperty (M := scenario_B) 2 EmptyString
      NAME_bGenerateRoutes built_actor = Ok a'
    /\ bGenerateRoutes a' = false
    /\ RoutePlanners built_actor = [Some O]
    /\ RoutePlanners a' = [Some 1%nat].
Proof.
  eexists. split; [vm_compute; reflexivity|].
  split; [|split; reflexivity].
  refine (proj1 (rebuild_replaces_routes (M := scenario_B) 2 EmptyString
                   built_actor _ eq_refl _)).
  vm_compute. reflexivity.
Defined.

(** ** When a build returns *)

Section BuildReturns.
Context {Waypoint : Type} {M : RoadMap Waypoint}.
Variable fuel : nat.
Variables acc height : F32.float.

Lemma sample_all_returns (l : list Waypoint) :
  (exists polys, sample_all fuel acc height l = Ok polys) <->
  Forall (fun s => exists out,
            sample_lane acc fuel s (GetLength (GetRoadId s)) = Ok out) l.
Proof.
  induction l as [|s l IH]; cbn [sample_all].
  - split; [constructor|]. intros _. now exists [].
  - split.
    + intros (polys & H).
      destruct (sample_lane acc fuel s _) as [out| | |] eqn:Hs;
        cbn [bind] in H; try discriminate.
      destruct (sample_all fuel acc height l) as [polys'| | |] eqn:Hl;
        cbn [bind] in H; try discriminate.
      constructor; [now exists out|]. apply IH. now exists polys'.
    + intros H. apply List.Forall_cons_iff in H as [(out & Hs) Hl].
      apply IH in Hl as (polys & Hl). rewrite Hs, Hl. cbn [bind]. eauto.
Qed.

Lemma pass_plan_returns (anchors : list Waypoint) :
  forall visited,
    (exists plan, pass_plan fuel acc height anchors visited = Ok plan) <->
    Forall (fun s => exists out,
              sample_lane acc fuel s (GetLength (GetRoadId s)) = Ok out)
      (pass_lanes anchors visited).
Proof.
  induction anchors as [|E anchors IH]; intros visited;
    cbn [pass_plan pass_lanes].
  - split; [constructor|]. intros _. now exists [].
  - rewrite Forall_app, <- sample_all_returns, <- IH. split.
    + intros (plan & H).
      destruct (sample_all fuel acc height _) as [polys| | |] eqn:Hs;
        cbn [bind] in H; try discriminate.
      destruct (pass_plan fuel acc height anchors _) as [plan'| | |] eqn:Hp;
        cbn [bind] in H; try discriminate.
      split; eauto.
    + intros [(polys & Hs) (plan & Hp)]. rewrite Hs. cbn [bind].
      rewrite Hp. cbn [bind]. eauto.
Qed.

Lemma pass_lanes_distinct (anchors : list Waypoint) :
  forall visited,
    NoDup visited ->
    NoDup (visited ++ List.map ident (pass_lanes anchors visited)).
Proof.
  induction anchors as [|E anchors IH]; intros visited Hnd;
    cbn [pass_lanes].
  - cbn [List.map]. now rewrite app_nil_r.
  - rewrite List.map_app, app_assoc. apply IH.
    now apply contributing_NoDup.
Qed.

End BuildReturns.

(** X16: when a build returns.  With a map that parsed, a build returns a
    result exactly when every lane of the pass can be sampled; the lanes of
    the pass are the successors of the anchors in order, each identifier
    (road, lane) taken at its first occurrence only, so that they have
    distinct identifiers and a successor met again later is never sampled,
    well-formed or not. *)
Theorem BuildRoutes_returns_iff {Waypoint} {M : RoadMap Waypoint}
    (fuel : nat) (ParseError : string) (a : AOpenDriveActor) :
  String.length ParseError = 0%nat ->
  ((exists a', BuildRoutes fuel ParseError a = Ok a') <->
   Forall (fun s => exists out,
             sample_lane (RoadAccuracy a) fuel s (GetLength (GetRoadId s))
             = Ok out)
     (pass_lanes GenerateLaneEnd []))
  /\ NoDup (List.map ident (pass_lanes GenerateLaneEnd [])).
Proof.
  intros Hpe. split.
  - rewrite <- (pass_plan_returns fuel (RoadAccuracy a) (TriggersHeight a)).
    unfold BuildRoutes. rewrite Hpe. cbn [Nat.ltb Nat.leb].
    rewrite build_pass_plan. split.
    + intros (a' & H).
      destruct (pass_plan _ _ _ _ _) as [plan| | |]; cbn [bind] in H;
        try discriminate. eauto.
    + intros (plan & ->). cbn [bind]. eauto.
  - apply (pass_lanes_distinct GenerateLaneEnd []). constructor.
Qed.

Lemma BuildRoutes_returns_iff_witness :
  (exists a',
      BuildRoutes (M := merge) 2 EmptyString (fresh_actor ten) = Ok a')
  /\ pass_lanes (M := merge) (GenerateLaneEnd (RoadMap := merge)) []
     = [lane_start 2; lane_start 3].
Proof.
  split; [|reflexivity].
  destruct (BuildRoutes_returns_iff (M := merge) 2 EmptyString
              (fresh_actor ten) eq_refl) as ((_ & H) & _).
  apply H. repeat constructor; eexists; vm_compute; reflexivity.
Defined.
